(** * Audio analysis service: feature extraction, mood detection, publish/subscribe

    A shallow embedding of [class AudioService] (services/audioService.ts).
    The repository holds two revisions of that file.  The embedding follows
    the one whose loop calls [extractAudioFeatures] and publishes the
    dominant frequency; the other revision computes the same features inline
    in [startAnalysisLoop], with noise floor [0.05] instead of [0.03], writes
    the debounce threshold as the literal [100], and has a different guard in
    [calculateDominantFrequency], which is embedded as well.

    Numbers.  A JavaScript [number] is modelled by [JS.number]: the IEEE
    special values [NaN], [+Infinity], [-Infinity] and, for every finite
    value, an exact real.  Division by zero, comparisons with [NaN] and the
    [Math.*] functions follow ECMAScript on the special values; on finite
    values the arithmetic is exact (rounding and overflow of binary64 are not
    part of the model, and the two zeros are not distinguished: a zero
    divisor is treated as [+0]).

    The module [Binary64] transcribes the feature extraction on binary64
    floats as well, with every operation rounded as a JavaScript engine
    rounds it.  A statement about [JS.number] values is a statement in
    exact arithmetic; where the value a program computes can differ from it
    by rounding and the difference matters (a value on a threshold of the
    classifier, a quotient at the end of its range), the statement says so
    and the computed value is given on [Binary64].

    Integer-valued variables of the source (loop indices, counters, sums of
    bytes, [Date.now()] in milliseconds) are [nat] or [Z]; they are injected
    into [JS.number] where the source mixes them with fractional values.

    Effects.  The service is a record of its fields, passed explicitly.
    What surrounds it (suspended [initialize()] calls, scheduled animation
    frames, the callbacks invoked so far) is the record [World]; the service
    evolves by [step] on events. *)

From Stdlib Require Import Floats Uint63.
From Stdlib Require Import Reals Lra Lia List Bool ZArith Arith.
From Stdlib.Strings Require Import Byte.
Import ListNotations.

Set Warnings "-inexact-float".

(* ================================================================== *)
(** ** JavaScript numbers *)
(* ================================================================== *)

Module JS.

Inductive number : Type :=
| NaN
| PInf
| NInf
| Fin (r : R).

Definition of_nat (n : nat) : number := Fin (INR n).

(** [Infinity * a] for a finite [a]: [NaN] at zero, otherwise signed. *)
Definition inf_times (a : R) : number :=
  if Req_dec_T a 0 then NaN
  else if Rlt_dec 0 a then PInf else NInf.

Definition neg (x : number) : number :=
  match x with
  | NaN => NaN
  | PInf => NInf
  | NInf => PInf
  | Fin a => Fin (- a)
  end.

Definition add (x y : number) : number :=
  match x, y with
  | NaN, _ | _, NaN => NaN
  | Fin a, Fin b => Fin (a + b)
  | PInf, NInf | NInf, PInf => NaN
  | PInf, _ | _, PInf => PInf
  | NInf, _ | _, NInf => NInf
  end.

Definition sub (x y : number) : number := add x (neg y).

Definition mul (x y : number) : number :=
  match x, y with
  | NaN, _ | _, NaN => NaN
  | Fin a, Fin b => Fin (a * b)
  | Fin a, PInf | PInf, Fin a => inf_times a
  | Fin a, NInf | NInf, Fin a => inf_times (- a)
  | PInf, PInf | NInf, NInf => PInf
  | PInf, NInf | NInf, PInf => NInf
  end.

(** [x / y]; [0 / 0] is [NaN] and [a / 0] is a signed infinity. *)
Definition div (x y : number) : number :=
  match x, y with
  | NaN, _ | _, NaN => NaN
  | Fin a, Fin b => if Req_dec_T b 0 then inf_times a else Fin (a / b)
  | Fin _, PInf | Fin _, NInf => Fin 0
  | PInf, Fin b => if Rlt_dec b 0 then NInf else PInf
  | NInf, Fin b => if Rlt_dec b 0 then PInf else NInf
  | PInf, PInf | PInf, NInf | NInf, PInf | NInf, NInf => NaN
  end.

(** [x < y]; every comparison with [NaN] is false. *)
Definition ltb (x y : number) : bool :=
  match x, y with
  | NaN, _ | _, NaN => false
  | Fin a, Fin b => if Rlt_dec a b then true else false
  | NInf, PInf | NInf, Fin _ | Fin _, PInf => true
  | _, _ => false
  end.

(** [x > y] *)
Definition gtb (x y : number) : bool := ltb y x.

(** [x >= y] *)
Definition geb (x y : number) : bool :=
  match x, y with
  | NaN, _ | _, NaN => false
  | Fin a, Fin b => if Rle_dec b a then true else false
  | PInf, _ | _, NInf => true
  | _, _ => false
  end.

(** [x === y] *)
Definition strict_eq (x y : number) : bool :=
  match x, y with
  | Fin a, Fin b => if Req_dec_T a b then true else false
  | PInf, PInf | NInf, NInf => true
  | _, _ => false
  end.

(** Truthiness of a number (as used by [||]): false for [0] and [NaN]. *)
Definition truthy (x : number) : bool :=
  match x with
  | NaN => false
  | Fin a => if Req_dec_T a 0 then false else true
  | _ => true
  end.

(** [Math.max(x, y)] and [Math.min(x, y)]: [NaN] if an argument is. *)
Definition Math_max (x y : number) : number :=
  match x, y with
  | NaN, _ | _, NaN => NaN
  | _, _ => if ltb x y then y else x
  end.

Definition Math_min (x y : number) : number :=
  match x, y with
  | NaN, _ | _, NaN => NaN
  | _, _ => if ltb y x then y else x
  end.

Definition Math_sqrt (x : number) : number :=
  match x with
  | NaN | NInf => NaN
  | PInf => PInf
  | Fin a => if Rlt_dec a 0 then NaN else Fin (sqrt a)
  end.

Definition Math_exp (x : number) : number :=
  match x with
  | NaN => NaN
  | PInf => PInf
  | NInf => Fin 0
  | Fin a => Fin (exp a)
  end.

Definition Math_log (x : number) : number :=
  match x with
  | NaN | NInf => NaN
  | PInf => PInf
  | Fin a =>
      if Rlt_dec a 0 then NaN
      else if Req_dec_T a 0 then NInf else Fin (ln a)
  end.

End JS.

Import JS.

Declare Scope js_scope.
Delimit Scope js_scope with js.
Bind Scope js_scope with number.
Infix "+" := add : js_scope.
Infix "-" := sub : js_scope.
Infix "*" := mul : js_scope.
Infix "/" := div : js_scope.
Infix "<?" := ltb : js_scope.
Infix ">?" := gtb : js_scope.
Infix ">=?" := geb : js_scope.
Infix "===" := strict_eq (at level 70, no associativity) : js_scope.

(* ================================================================== *)
(** ** Data model *)
(* ================================================================== *)

Record AudioFeatures : Type := mkFeatures {
  energy : number;
  spectralCentroid : number;
  spectralFlatness : number;
  spectralRolloff : number;
  rms : number;
  zcr : number
}.

Inductive MoodType : Type := happy | energetic | calm | melancholic.

Definition MoodType_eq_dec (a b : MoodType) : {a = b} + {a <> b}.
Proof. decide equality. Defined.

Record AudioAnalysisResult : Type := mkResult {
  features : AudioFeatures;
  mood : MoodType;
  moodConfidence : number;
  dominantFrequency : number
}.

(** A subscribed callback is a function object; the model keeps its
    identity, which is what [!==] compares. *)
Definition callback : Type := nat.

(** The platform objects the service holds, reduced to what it reads and
    writes. *)
Record AudioContext : Type := mkContext {
  sampleRate : number;
  closed : bool
}.

Record AnalyserNode : Type := mkAnalyser {
  fftSize : nat
}.

Record MediaStream : Type := mkStream {
  tracksStopped : bool
}.

(** The fields of [class AudioService] ([microphone], which is only written,
    is left out). *)
Record AudioService : Type := mkService {
  audioContext : option AudioContext;
  analyzer : option AnalyserNode;
  stream : option MediaStream;
  isInitialized : bool;
  sensitivity : number;
  listeners : list callback;
  currentMood : MoodType;
  moodChangeTime : Z;
  moodChangeThreshold : Z
}.

(** A spectral frame: the [Uint8Array] filled by [getByteFrequencyData]. *)
Definition frame : Type := list byte.

(* ================================================================== *)
(** ** Feature extraction ([extractAudioFeatures]) *)
(* ================================================================== *)

(** The function receives [dataArray] and [bufferLength]; its only caller
    passes [bufferLength = dataArray.length] (the analyser's
    [frequencyBinCount]), so [bufferLength] is [length dataArray] below.
    Each [for] loop of the source is a recursive function over the bins that
    threads the variables the loop updates.

    The definitions of this section compute on [JS.number]: they give the
    value of each feature in exact arithmetic.  The value the program
    computes, with every operation rounded to binary64, is given by the
    definitions of the same names in [Binary64]; the two agree on the
    integer scans and on the special values, and can differ in the last
    digits of a quotient, a product or a sum. *)

Section FeatureExtraction.

Local Open Scope js_scope.

(** [for (i...) sum += dataArray[i]] *)
Fixpoint sumLoop (data : frame) (sum : nat) : nat :=
  match data with
  | [] => sum
  | d :: rest => sumLoop rest (sum + to_nat d)
  end.

(** [x ** 2] *)
Definition pow2 (x : number) : number := x * x.

(** [for (i...) rmsSum += (dataArray[i] / 255) ** 2] *)
Fixpoint rmsLoop (data : frame) (rmsSum : number) : number :=
  match data with
  | [] => rmsSum
  | d :: rest => rmsLoop rest (rmsSum + pow2 (of_nat (to_nat d) / Fin 255))
  end.

(** [dataArray[i] > 128 ? 1 : -1], with [true] for [1]. *)
Definition signOf (d : byte) : bool := (128 <? to_nat d)%nat.

(** [for (i = 1...) { currentValue = ...; if (prevValue !== currentValue)
    zcr++; prevValue = currentValue }] *)
Fixpoint zcrLoop (data : frame) (prevValue : bool) (zcr : nat) : nat :=
  match data with
  | [] => zcr
  | d :: rest =>
      let currentValue := signOf d in
      let zcr := if Bool.eqb prevValue currentValue then zcr else S zcr in
      zcrLoop rest currentValue zcr
  end.

(** [for (i...) { amplitude = dataArray[i] / 255; numerator += i * amplitude;
    denominator += amplitude }] *)
Fixpoint centroidLoop (data : frame) (i : nat) (numerator denominator : number)
  : number * number :=
  match data with
  | [] => (numerator, denominator)
  | d :: rest =>
      let amplitude := of_nat (to_nat d) / Fin 255 in
      centroidLoop rest (S i)
        (numerator + of_nat i * amplitude) (denominator + amplitude)
  end.

(** [for (i...) { value = dataArray[i] / 255; if (value > 0.01) {
    geometricMean += Math.log(value); arithmeticMean += value;
    nonZeroCount++ } }] *)
Fixpoint flatnessLoop (data : frame) (geometricMean arithmeticMean : number)
  (nonZeroCount : nat) : number * number * nat :=
  match data with
  | [] => (geometricMean, arithmeticMean, nonZeroCount)
  | d :: rest =>
      let value := of_nat (to_nat d) / Fin 255 in
      if value >? Fin 0.01
      then flatnessLoop rest (geometricMean + Math_log value)
             (arithmeticMean + value) (S nonZeroCount)
      else flatnessLoop rest geometricMean arithmeticMean nonZeroCount
  end.

(** [for (i...) { cumulativeEnergy += dataArray[i];
    if (cumulativeEnergy / totalEnergy >= rolloffThreshold) {
      spectralRolloff = i / bufferLength; break } }];
    the result is the final value of [spectralRolloff]. *)
Fixpoint rolloffLoop (data : frame) (i cumulativeEnergy totalEnergy
  bufferLength : nat) (rolloffThreshold spectralRolloff : number) : number :=
  match data with
  | [] => spectralRolloff
  | d :: rest =>
      let cumulativeEnergy := (cumulativeEnergy + to_nat d)%nat in
      if of_nat cumulativeEnergy / of_nat totalEnergy >=? rolloffThreshold
      then of_nat i / of_nat bufferLength
      else rolloffLoop rest (S i) cumulativeEnergy totalEnergy bufferLength
             rolloffThreshold spectralRolloff
  end.

Definition computeEnergy (sens : number) (dataArray : frame)
  (noiseFloor : number) : number :=
  let bufferLength := length dataArray in
  let sum := sumLoop dataArray 0 in
  let energy := of_nat sum / of_nat (bufferLength * 255) in
  let energy := Math_max (Fin 0) (energy - noiseFloor) in
  Math_min (Fin 1) (energy * Fin 2 * sens).

Definition computeRms (dataArray : frame) : number :=
  let bufferLength := length dataArray in
  let rmsSum := rmsLoop dataArray (Fin 0) in
  Math_sqrt (rmsSum / of_nat bufferLength).

Definition computeZcr (dataArray : frame) : number :=
  let bufferLength := length dataArray in
  (* dataArray[0] is undefined on an empty array, and undefined > 128 is
     false *)
  let prevValue := match dataArray with d :: _ => signOf d | [] => false end in
  let zcr := zcrLoop (tl dataArray) prevValue 0 in
  of_nat zcr / of_nat bufferLength.

Definition computeSpectralCentroid (dataArray : frame) : number :=
  let bufferLength := length dataArray in
  let '(numerator, denominator) := centroidLoop dataArray 0 (Fin 0) (Fin 0) in
  if denominator === Fin 0 then Fin 0
  else numerator / denominator / of_nat bufferLength.

Definition computeSpectralFlatness (dataArray : frame) : number :=
  let '(geometricMean, arithmeticMean, nonZeroCount) :=
    flatnessLoop dataArray (Fin 0) (Fin 0) 0 in
  let geometricMean :=
    if (0 <? nonZeroCount)%nat
    then Math_exp (geometricMean / of_nat nonZeroCount) else Fin 0 in
  let arithmeticMean :=
    if (0 <? nonZeroCount)%nat
    then arithmeticMean / of_nat nonZeroCount else Fin 0 in
  if arithmeticMean >? Fin 0 then geometricMean / arithmeticMean else Fin 0.

Definition computeSpectralRolloff (dataArray : frame) : number :=
  let bufferLength := length dataArray in
  let rolloffThreshold := Fin 0.85 in
  let totalEnergy := sumLoop dataArray 0 in
  rolloffLoop dataArray 0 0 totalEnergy bufferLength rolloffThreshold (Fin 0).

Definition extractAudioFeatures (s : AudioService) (dataArray : frame)
  (noiseFloor : number) : AudioFeatures :=
  {| energy := computeEnergy (sensitivity s) dataArray noiseFloor;
     rms := computeRms dataArray;
     zcr := computeZcr dataArray;
     spectralCentroid := computeSpectralCentroid dataArray;
     spectralFlatness := computeSpectralFlatness dataArray;
     spectralRolloff := computeSpectralRolloff dataArray |}.

(** [setSensitivity(value)] *)
Definition setSensitivity (s : AudioService) (value : number) : AudioService :=
  {| audioContext := audioContext s; analyzer := analyzer s;
     stream := stream s; isInitialized := isInitialized s;
     sensitivity := Math_max (Fin 0) (Math_min (Fin 1) value);
     listeners := listeners s; currentMood := currentMood s;
     moodChangeTime := moodChangeTime s;
     moodChangeThreshold := moodChangeThreshold s |}.

End FeatureExtraction.

(* ================================================================== *)
(** ** Mood detection ([detectMood]) *)
(* ================================================================== *)

Section MoodDetection.

Local Open Scope js_scope.

(** The value of the local variable [detectedMood] after the [if] chain.
    [this.currentMood || "calm"] is [this.currentMood]: the four mood strings
    are non-empty, hence truthy. *)
Definition detectedMood (s : AudioService) (f : AudioFeatures) : MoodType :=
  if energy f <? Fin 0.03 then currentMood s
  else if (energy f >? Fin 0.3) && (zcr f >? Fin 0.2) then energetic
  else if (energy f >? Fin 0.2) && (spectralCentroid f >? Fin 0.3) then happy
  else if (spectralFlatness f >? Fin 0.15) && (energy f <? Fin 0.15)
  then melancholic
  else calm.

(** [this.currentMood = detectedMood; this.moodChangeTime = now] *)
Definition commitMood (s : AudioService) (m : MoodType) (now : Z)
  : AudioService :=
  {| audioContext := audioContext s; analyzer := analyzer s;
     stream := stream s; isInitialized := isInitialized s;
     sensitivity := sensitivity s; listeners := listeners s;
     currentMood := m; moodChangeTime := now;
     moodChangeThreshold := moodChangeThreshold s |}.

(** [detectMood(features)], with [now] the value [Date.now()] returns.
    Yields the updated service and [{ mood, confidence }].  (The other
    revision of the file writes the literal [100] where this one reads
    [this.moodChangeThreshold], which is initialised to [100].) *)
Definition detectMood (s : AudioService) (f : AudioFeatures) (now : Z)
  : AudioService * (MoodType * number) :=
  let detected := detectedMood s f in
  let s' :=
    if MoodType_eq_dec detected (currentMood s) then s
    else if (now - moodChangeTime s >? moodChangeThreshold s)%Z
         then commitMood s detected now
         else s in
  (s', (currentMood s', Fin 1)).

End MoodDetection.

(* ================================================================== *)
(** ** Normalisation of raw features ([normalizeFeatures]) *)
(* ================================================================== *)

Section Normalisation.

Local Open Scope js_scope.

(** [normalizeFeatures(features)], of the revision in
    services/audioService.ts, where [handleAudioFeatures] passes its result
    to [detectMood].  The six fields are always present in the record, so
    each [!== undefined] test succeeds. *)
Definition normalizeFeatures (features : AudioFeatures) : AudioFeatures :=
  {| energy := Math_min (Fin 1) (Math_max (Fin 0) (energy features));
     spectralCentroid :=
       Math_min (Fin 1)
         (Math_max (Fin 0) (spectralCentroid features / Fin 10000));
     spectralFlatness :=
       Math_min (Fin 1) (Math_max (Fin 0) (spectralFlatness features));
     spectralRolloff :=
       Math_min (Fin 1)
         (Math_max (Fin 0) (spectralRolloff features / Fin 22050));
     rms := Math_min (Fin 1) (Math_max (Fin 0) (rms features * Fin 5));
     zcr := Math_min (Fin 1) (Math_max (Fin 0) (zcr features / Fin 1000)) |}.

End Normalisation.

(* ================================================================== *)
(** ** Dominant frequency ([calculateDominantFrequency]) *)
(* ================================================================== *)

Section DominantFrequency.

Local Open Scope js_scope.

(** [for (i...) if (dataArray[i] > maxValue) { maxValue = dataArray[i];
    maxIndex = i }]; the result is the final [maxIndex]. *)
Fixpoint dominantLoop (data : frame) (i maxIndex maxValue : nat) : nat :=
  match data with
  | [] => maxIndex
  | d :: rest =>
      if (maxValue <? to_nat d)%nat
      then dominantLoop rest (S i) i (to_nat d)
      else dominantLoop rest (S i) maxIndex maxValue
  end.

(** [calculateDominantFrequency()]; [dataArray] is what
    [getByteFrequencyData] writes.  This is the revision that returns [0]
    unless both the analyser and the audio context exist. *)
Definition calculateDominantFrequency (s : AudioService) (dataArray : frame)
  : number :=
  match analyzer s, audioContext s with
  | Some an, Some ctx =>
      let maxIndex := dominantLoop dataArray 0 0 0 in
      (of_nat maxIndex * sampleRate ctx) / of_nat (fftSize an * 2)
  | _, _ => Fin 0
  end.

(** The revision in services/audioService.ts tests the analyser only and
    reads [this.audioContext?.sampleRate || 44100]. *)
Definition calculateDominantFrequency_fallback (s : AudioService)
  (dataArray : frame) : number :=
  match analyzer s with
  | None => Fin 0
  | Some an =>
      let maxIndex := dominantLoop dataArray 0 0 0 in
      let sampleRate :=
        match audioContext s with
        | Some ctx =>
            if truthy (sampleRate ctx) then sampleRate ctx else Fin 44100
        | None => Fin 44100
        end in
      (of_nat maxIndex * sampleRate) / of_nat (fftSize an * 2)
  end.

End DominantFrequency.

(* ================================================================== *)
(** ** Subscribers ([subscribe], [notifyListeners]) *)
(* ================================================================== *)

Definition setListeners (s : AudioService) (ls : list callback)
  : AudioService :=
  {| audioContext := audioContext s; analyzer := analyzer s;
     stream := stream s; isInitialized := isInitialized s;
     sensitivity := sensitivity s; listeners := ls;
     currentMood := currentMood s; moodChangeTime := moodChangeTime s;
     moodChangeThreshold := moodChangeThreshold s |}.

(** The function [subscribe] returns: a closure over [callback]. *)
Definition unsubscribeHandle : Type := callback.

(** [subscribe(callback)]: [this.listeners.push(callback)], and the handle. *)
Definition subscribe (s : AudioService) (cb : callback)
  : AudioService * unsubscribeHandle :=
  (setListeners s (listeners s ++ [cb]), cb).

(** Invoking the handle:
    [this.listeners = this.listeners.filter((listener) => listener !== callback)]. *)
Definition unsubscribe (h : unsubscribeHandle) (s : AudioService)
  : AudioService :=
  setListeners s (filter (fun listener => negb (listener =? h)%nat) (listeners s)).

(** How a call ends: by returning, or with an exception that propagates. *)
Inductive completion : Type := Normal | Thrown.

(** One invocation of a callback with a result. *)
Definition invocation : Type := (callback * AudioAnalysisResult)%type.

Section Publish.

(** What the subscribed functions do is not part of the service: [throws cb r]
    tells whether callback [cb], invoked with [r], throws.  Callbacks are
    taken not to call back into the service. *)
Variable throws : callback -> AudioAnalysisResult -> bool.

(** [ls.forEach((listener) => listener(result))]: the invocations made, in
    order, and how [forEach] ends.  An exception thrown by a callback is not
    caught, so it ends the iteration. *)
Fixpoint forEach_listener (ls : list callback) (result : AudioAnalysisResult)
  : list invocation * completion :=
  match ls with
  | [] => ([], Normal)
  | listener :: rest =>
      if throws listener result then ([(listener, result)], Thrown)
      else
        let '(calls, c) := forEach_listener rest result in
        ((listener, result) :: calls, c)
  end.

(** [notifyListeners(result)] *)
Definition notifyListeners (s : AudioService) (result : AudioAnalysisResult)
  : list invocation * completion :=
  forEach_listener (listeners s) result.

(* ================================================================== *)
(** ** The analysis loop and the life cycle *)
(* ================================================================== *)

(** Values imported from the settings module. *)
Variable audioSettings_fftSize : nat.
Variable moodDetection_defaultSensitivity : number.

(** [const noiseFloor = 0.03] in [startAnalysisLoop] (the other revision of
    the file has [0.05]). *)
Definition noiseFloor : number := Fin 0.03.

(** The service together with what surrounds it: the [initialize()] calls
    suspended at [await getUserMedia(...)], the [analyzeAudio] callbacks
    handed to [requestAnimationFrame] and not yet run, and the record of all
    callback invocations made so far. *)
Record World : Type := mkWorld {
  service : AudioService;
  pendingInitialize : nat;
  scheduledFrames : nat;
  invocations : list invocation
}.

Definition newService : AudioService :=
  {| audioContext := None; analyzer := None; stream := None;
     isInitialized := false;
     sensitivity := moodDetection_defaultSensitivity;
     listeners := []; currentMood := calm; moodChangeTime := 0;
     moodChangeThreshold := 100 |}.

Definition newWorld : World :=
  {| service := newService; pendingInitialize := 0; scheduledFrames := 0;
     invocations := [] |}.

Definition setService (w : World) (s : AudioService) : World :=
  {| service := s; pendingInitialize := pendingInitialize w;
     scheduledFrames := scheduledFrames w; invocations := invocations w |}.

(** One activation of the closure [analyzeAudio]; [dataArray] is the frame
    the analyser delivers and [now] the clock.  Within one activation
    [getByteFrequencyData] yields the same frame to [analyzeAudio] and to
    [calculateDominantFrequency].  [this.analyzer!] throws when there is no
    analyser.  The closing [requestAnimationFrame(analyzeAudio)] is reached
    only if nothing before it threw. *)
Definition analyzeAudio (w : World) (dataArray : frame) (now : Z)
  : World * completion :=
  let s := service w in
  if negb (isInitialized s) then (w, Normal)
  else
    match analyzer s with
    | None => (w, Thrown)
    | Some _ =>
        let features := extractAudioFeatures s dataArray noiseFloor in
        let '(s1, moodResult) := detectMood s features now in
        let dominantFrequency := calculateDominantFrequency s1 dataArray in
        let result :=
          {| mood := fst moodResult; moodConfidence := snd moodResult;
             features := features; dominantFrequency := dominantFrequency |} in
        let '(calls, c) := notifyListeners s1 result in
        match c with
        | Thrown =>
            ({| service := s1; pendingInitialize := pendingInitialize w;
                scheduledFrames := scheduledFrames w;
                invocations := invocations w ++ calls |}, Thrown)
        | Normal =>
            ({| service := s1; pendingInitialize := pendingInitialize w;
                scheduledFrames := S (scheduledFrames w);
                invocations := invocations w ++ calls |}, Normal)
        end
    end.

(** [startAnalysisLoop()]: the first activation is a direct call. *)
Definition startAnalysisLoop (w : World) (dataArray : frame) (now : Z)
  : World * completion :=
  match analyzer (service w), audioContext (service w) with
  | Some _, Some _ => analyzeAudio w dataArray now
  | _, _ => (w, Normal)
  end.

(** [initialize()] up to its [await]: returns at once when the service is
    initialised, otherwise waits for the microphone. *)
Definition initialize_call (w : World) : World :=
  if isInitialized (service w) then w
  else
    {| service := service w; pendingInitialize := S (pendingInitialize w);
       scheduledFrames := scheduledFrames w; invocations := invocations w |}.

(** [initialize()] resumed with a stream: the platform objects are created
    ([rate] is the sample rate of the new context), [isInitialized] is set
    and the loop is started.  An exception from the loop is caught by the
    [try] of [initialize]. *)
Definition initialize_granted (w : World) (rate : number) (dataArray : frame)
  (now : Z) : World :=
  let s := service w in
  let s1 :=
    {| audioContext := Some {| sampleRate := rate; closed := false |};
       analyzer := Some {| fftSize := audioSettings_fftSize |};
       stream := Some {| tracksStopped := false |};
       isInitialized := true;
       sensitivity := sensitivity s; listeners := listeners s;
       currentMood := currentMood s; moodChangeTime := moodChangeTime s;
       moodChangeThreshold := moodChangeThreshold s |} in
  let w1 :=
    {| service := s1; pendingInitialize := Nat.pred (pendingInitialize w);
       scheduledFrames := scheduledFrames w; invocations := invocations w |} in
  fst (startAnalysisLoop w1 dataArray now).

(** [initialize()] resumed with a rejection: caught, nothing changes. *)
Definition initialize_denied (w : World) : World :=
  {| service := service w; pendingInitialize := Nat.pred (pendingInitialize w);
     scheduledFrames := scheduledFrames w; invocations := invocations w |}.

(** [stop()]: clears the flag, stops the tracks of the stream and closes the
    context, when they exist.  Stopping a stopped track does nothing, and
    closing a closed context only rejects a promise that [stop()] drops, so
    no call of [stop()] throws. *)
Definition stop (s : AudioService) : AudioService :=
  {| audioContext :=
       option_map (fun ctx => {| sampleRate := sampleRate ctx; closed := true |})
         (audioContext s);
     analyzer := analyzer s;
     stream := option_map (fun _ => {| tracksStopped := true |}) (stream s);
     isInitialized := false;
     sensitivity := sensitivity s; listeners := listeners s;
     currentMood := currentMood s; moodChangeTime := moodChangeTime s;
     moodChangeThreshold := moodChangeThreshold s |}.

(** What can happen to the service: calls of its public methods, the
    settling of a pending microphone request, and the firing of a scheduled
    animation-frame callback. *)
Inductive event : Type :=
| CallInitialize
| MicrophoneGranted (rate : number) (dataArray : frame) (now : Z)
| MicrophoneDenied
| AnimationFrame (dataArray : frame) (now : Z)
| CallStop
| CallSubscribe (cb : callback)
| InvokeUnsubscribe (h : unsubscribeHandle)
| CallSetSensitivity (value : number).

Definition step (w : World) (e : event) : World :=
  match e with
  | CallInitialize => initialize_call w
  | MicrophoneGranted rate dataArray now =>
      match pendingInitialize w with
      | O => w
      | S _ => initialize_granted w rate dataArray now
      end
  | MicrophoneDenied =>
      match pendingInitialize w with
      | O => w
      | S _ => initialize_denied w
      end
  | AnimationFrame dataArray now =>
      match scheduledFrames w with
      | O => w
      | S n =>
          fst (analyzeAudio
                 {| service := service w;
                    pendingInitialize := pendingInitialize w;
                    scheduledFrames := n; invocations := invocations w |}
                 dataArray now)
      end
  | CallStop => setService w (stop (service w))
  | CallSubscribe cb => setService w (fst (subscribe (service w) cb))
  | InvokeUnsubscribe h => setService w (unsubscribe h (service w))
  | CallSetSensitivity value => setService w (setSensitivity (service w) value)
  end.

Definition run (w : World) (events : list event) : World :=
  fold_left step events w.

End Publish.

(* ================================================================== *)
(** ** The particle system ([ParticleSystem], ParticleVisualizer.tsx) *)
(* ================================================================== *)

(** The consumer of the results: the later revision of the component, which
    expands the particle cloud with the energy.  The record holds what its
    two hooks read and write: the rotation of [pointsRef.current] (absent
    until the points are mounted), the position attribute and its
    [needsUpdate] flag, the two refs, the state [lastMood], and the size and
    colour of the material.  The arrays are [Float32Array]s; their rounding
    to single precision is not modelled. *)

Section Particles.

Local Open Scope js_scope.

(** Colours, and [visualizationSettings.colorPalettes[mood][0]]. *)
Variable color : Type.
Variable paletteColor : MoodType -> color.

(** The positions are held in a [Float32Array]: a number stored there is
    converted to the nearest single-precision value, which is what
    [Math.fround] computes.  The conversion is taken as given. *)
Variable fround : number -> number.

Record ParticleSystem : Type := mkParticles {
  mounted : bool;
  rotationX : number;
  rotationY : number;
  positions : list number;
  needsUpdate : bool;
  originalPositions : option (list number);
  currentExpansion : number;
  lastMood : MoodType;
  materialColor : color;
  materialSize : number
}.

(** [for (i = 0; i < originalPositions.length; i += 3) { positions[i] =
    originalPositions[i] * expansionFactor; ... [i + 1] ...; ... [i + 2] ... }]:
    both arrays have the same length (one is a [slice()] of the other), a
    write past the end of a typed array is dropped, so every element of
    [positions] is written exactly once, with the product converted to
    single precision. *)
Fixpoint expandLoop (originalPositions : list number)
  (expansionFactor : number) : list number :=
  match originalPositions with
  | x :: y :: z :: rest =>
      fround (x * expansionFactor) :: fround (y * expansionFactor)
      :: fround (z * expansionFactor) :: expandLoop rest expansionFactor
  | [x; y] => [fround (x * expansionFactor); fround (y * expansionFactor)]
  | [x] => [fround (x * expansionFactor)]
  | [] => []
  end.

(** The callback given to [useFrame], called with the time [delta] since the
    previous frame. *)
Definition onFrame (p : ParticleSystem) (audioData : option AudioAnalysisResult)
  (delta : number) : ParticleSystem :=
  if negb (mounted p) then p
  else
    match audioData, originalPositions p with
    | Some data, Some originals =>
        let energy :=
          if truthy (energy (features data)) then energy (features data)
          else Fin 0 in
        let baseRotation := Fin 0.01 in
        let energyRotation := energy * Fin 2 in
        let rotationY' := rotationY p + delta * (baseRotation + energyRotation) in
        let rotationX' :=
          rotationX p + delta * (baseRotation + energyRotation) * Fin 0.3 in
        let targetExpansionFactor := Fin 1 + energy * Fin 0.5 in
        let interpolationSpeed := Fin 8 in
        let current :=
          currentExpansion p
          + (targetExpansionFactor - currentExpansion p)
            * Math_min (delta * interpolationSpeed) (Fin 1) in
        let expansionFactor := current in
        {| mounted := mounted p;
           rotationX := rotationX'; rotationY := rotationY';
           positions := expandLoop originals expansionFactor;
           needsUpdate := true;
           originalPositions := originalPositions p;
           currentExpansion := current;
           lastMood := lastMood p;
           materialColor := materialColor p;
           materialSize := materialSize p |}
    | _, _ => p
    end.

(** The effect that runs when [audioData] changes; [setLastMood(mood)] is the
    value [lastMood] has at the next run. *)
Definition onAudioData (p : ParticleSystem)
  (audioData : option AudioAnalysisResult) : ParticleSystem :=
  match audioData with
  | None => p
  | Some data =>
      let energy := energy (features data) in
      let mood := mood data in
      let changed := if MoodType_eq_dec mood (lastMood p) then false else true in
      {| mounted := mounted p;
         rotationX := rotationX p; rotationY := rotationY p;
         positions := positions p; needsUpdate := needsUpdate p;
         originalPositions := originalPositions p;
         currentExpansion := currentExpansion p;
         lastMood := if changed then mood else lastMood p;
         materialColor := if changed then paletteColor mood else materialColor p;
         materialSize := Fin 0.1 + energy * Fin 0.5 |}
  end.

End Particles.

Arguments mounted {color} _.
Arguments rotationX {color} _.
Arguments rotationY {color} _.
Arguments positions {color} _.
Arguments needsUpdate {color} _.
Arguments originalPositions {color} _.
Arguments currentExpansion {color} _.
Arguments lastMood {color} _.
Arguments materialColor {color} _.
Arguments materialSize {color} _.
Arguments onFrame {color} fround p audioData delta.
Arguments onAudioData {color} paletteColor p audioData.

(* ================================================================== *)
(** ** The feature bars ([FeatureWithBar], visualizer page) *)
(* ================================================================== *)

Section FeatureBars.

Local Open Scope js_scope.

(** [value ? Math.min(100, (value / max) * 100) : 0], the width of the bar
    in percent; [value] is [undefined] while there is no result. *)
Definition barPercentage (value : option number) (max : number) : number :=
  match value with
  | Some v => if truthy v then Math_min (Fin 100) (v / max * Fin 100) else Fin 0
  | None => Fin 0
  end.

(** The six bars of [AudioFeatures]: [max] is 1 by default and 1.5 for the
    rolloff. *)
Definition featureBars (audioData : option AudioAnalysisResult)
  : list number :=
  let feature (get : AudioFeatures -> number) :=
    option_map (fun data => get (features data)) audioData in
  [ barPercentage (feature energy) (Fin 1);
    barPercentage (feature rms) (Fin 1);
    barPercentage (feature zcr) (Fin 1);
    barPercentage (feature spectralCentroid) (Fin 1);
    barPercentage (feature spectralFlatness) (Fin 1);
    barPercentage (feature spectralRolloff) (Fin 1.5) ].

End FeatureBars.

(* ================================================================== *)
(** ** Feature extraction on binary64 floats *)
(* ================================================================== *)

(** The same statements of [extractAudioFeatures], with [number] read as
    IEEE binary64 and every operation rounded.  [Math.log] and [Math.exp],
    which the language leaves to the engine, are parameters; [x ** 2] is
    taken as [x * x]. *)
Module Binary64.

Record AudioFeatures : Type := mkFeatures {
  energy : float;
  spectralCentroid : float;
  spectralFlatness : float;
  spectralRolloff : float;
  rms : float;
  zcr : float
}.

Definition of_nat (n : nat) : float :=
  PrimFloat.of_uint63 (Uint63.of_Z (Z.of_nat n)).

(** The real number a finite double stands for: sign, integer significand
    and power of two.  (For the infinities and [NaN], which stand for no
    real number, the value is 0.) *)
Definition to_R (x : float) : R :=
  match Prim2SF x with
  | S754_finite s m e =>
      ((if s then -1 else 1) * IZR (Z.pos m) * powerRZ 2 e)%R
  | _ => 0%R
  end.

Definition Math_max (x y : float) : float :=
  if PrimFloat.is_nan x || PrimFloat.is_nan y then PrimFloat.nan
  else if PrimFloat.ltb x y then y else x.

Definition Math_min (x y : float) : float :=
  if PrimFloat.is_nan x || PrimFloat.is_nan y then PrimFloat.nan
  else if PrimFloat.ltb y x then y else x.

Section Extraction.

Variable Math_log : float -> float.
Variable Math_exp : float -> float.

Local Open Scope float_scope.

Fixpoint rmsLoop (data : frame) (rmsSum : float) : float :=
  match data with
  | [] => rmsSum
  | d :: rest =>
      let v := of_nat (to_nat d) / 255 in
      rmsLoop rest (rmsSum + v * v)
  end.

Fixpoint centroidLoop (data : frame) (i : nat) (numerator denominator : float)
  : float * float :=
  match data with
  | [] => (numerator, denominator)
  | d :: rest =>
      let amplitude := of_nat (to_nat d) / 255 in
      centroidLoop rest (S i)
        (numerator + of_nat i * amplitude) (denominator + amplitude)
  end.

Fixpoint flatnessLoop (data : frame) (geometricMean arithmeticMean : float)
  (nonZeroCount : nat) : float * float * nat :=
  match data with
  | [] => (geometricMean, arithmeticMean, nonZeroCount)
  | d :: rest =>
      let value := of_nat (to_nat d) / 255 in
      if 0.01 <? value
      then flatnessLoop rest (geometricMean + Math_log value)
             (arithmeticMean + value) (S nonZeroCount)
      else flatnessLoop rest geometricMean arithmeticMean nonZeroCount
  end.

Fixpoint rolloffLoop (data : frame) (i cumulativeEnergy totalEnergy
  bufferLength : nat) (rolloffThreshold spectralRolloff : float) : float :=
  match data with
  | [] => spectralRolloff
  | d :: rest =>
      let cumulativeEnergy := (cumulativeEnergy + to_nat d)%nat in
      if rolloffThreshold <=? of_nat cumulativeEnergy / of_nat totalEnergy
      then of_nat i / of_nat bufferLength
      else rolloffLoop rest (S i) cumulativeEnergy totalEnergy bufferLength
             rolloffThreshold spectralRolloff
  end.

Definition computeEnergy (sens : float) (dataArray : frame)
  (noiseFloor : float) : float :=
  let bufferLength := length dataArray in
  let sum := sumLoop dataArray 0 in
  let energy := of_nat sum / of_nat (bufferLength * 255) in
  let energy := Math_max 0 (energy - noiseFloor) in
  Math_min 1 (energy * 2 * sens).

Definition computeRms (dataArray : frame) : float :=
  let bufferLength := length dataArray in
  let rmsSum := rmsLoop dataArray 0 in
  PrimFloat.sqrt (rmsSum / of_nat bufferLength).

Definition computeZcr (dataArray : frame) : float :=
  let bufferLength := length dataArray in
  let prevValue := match dataArray with d :: _ => signOf d | [] => false end in
  let zcr := zcrLoop (tl dataArray) prevValue 0 in
  of_nat zcr / of_nat bufferLength.

Definition computeSpectralCentroid (dataArray : frame) : float :=
  let bufferLength := length dataArray in
  let '(numerator, denominator) := centroidLoop dataArray 0 0 0 in
  if denominator =? 0 then 0
  else numerator / denominator / of_nat bufferLength.

Definition computeSpectralFlatness (dataArray : frame) : float :=
  let '(geometricMean, arithmeticMean, nonZeroCount) :=
    flatnessLoop dataArray 0 0 0 in
  let geometricMean :=
    if (0 <? nonZeroCount)%nat
    then Math_exp (geometricMean / of_nat nonZeroCount) else 0 in
  let arithmeticMean :=
    if (0 <? nonZeroCount)%nat
    then arithmeticMean / of_nat nonZeroCount else 0 in
  if 0 <? arithmeticMean then geometricMean / arithmeticMean else 0.

Definition computeSpectralRolloff (dataArray : frame) : float :=
  let bufferLength := length dataArray in
  let rolloffThreshold := 0.85 in
  let totalEnergy := sumLoop dataArray 0 in
  rolloffLoop dataArray 0 0 totalEnergy bufferLength rolloffThreshold 0.

Definition extractAudioFeatures (sens : float) (dataArray : frame)
  (noiseFloor : float) : AudioFeatures :=
  {| energy := computeEnergy sens dataArray noiseFloor;
     rms := computeRms dataArray;
     zcr := computeZcr dataArray;
     spectralCentroid := computeSpectralCentroid dataArray;
     spectralFlatness := computeSpectralFlatness dataArray;
     spectralRolloff := computeSpectralRolloff dataArray |}.

End Extraction.

(** [Math.log] and [Math.exp] at the arguments that the two frames of the
    flatness examples need, the one-bin frame [7] and the frame of 128 bins
    of 3, as an engine returns them when its two functions are correctly
    rounded there: the doubles nearest to ln (7/255) and ln (3/255), and the
    doubles nearest to the exponentials of the two means of logarithms that
    the loop then computes.  Other arguments are not tabulated and give
    [NaN]. *)
Definition Math_log_sample (x : float) : float :=
  if (x =? 0.027450980392156862)%float then (-3.5953533961031128)%float
  else if (x =? 0.011764705882352941)%float then (-4.442651256490317)%float
  else PrimFloat.nan.

Definition Math_exp_sample (x : float) : float :=
  if (x =? -3.5953533961031128)%float then 0.027450980392156866%float
  else if (x =? -4.4426512564903105)%float then 0.011764705882353012%float
  else PrimFloat.nan.

End Binary64.

(* ================================================================== *)
(** ** The rules of the specification, as stated there *)
(* ================================================================== *)

Section SpecificationRules.

Local Open Scope js_scope.

(** The conditions of the four guarded rules of the mood classifier. *)
Definition stay_condition (f : AudioFeatures) : Prop :=
  (energy f <? Fin 0.03) = true.

Definition energetic_condition (f : AudioFeatures) : Prop :=
  (energy f >? Fin 0.3) = true /\ (zcr f >? Fin 0.2) = true.

Definition happy_condition (f : AudioFeatures) : Prop :=
  (energy f >? Fin 0.2) = true /\ (spectralCentroid f >? Fin 0.3) = true.

Definition melancholic_condition (f : AudioFeatures) : Prop :=
  (spectralFlatness f >? Fin 0.15) = true /\ (energy f <? Fin 0.15) = true.

(** The candidate mood: five rules in priority order, the first rule whose
    condition holds decides. *)
Inductive candidate (current : MoodType) (f : AudioFeatures)
  : MoodType -> Prop :=
| rule_stay :
    stay_condition f ->
    candidate current f current
| rule_energetic :
    ~ stay_condition f ->
    energetic_condition f ->
    candidate current f energetic
| rule_happy :
    ~ stay_condition f -> ~ energetic_condition f ->
    happy_condition f ->
    candidate current f happy
| rule_melancholic :
    ~ stay_condition f -> ~ energetic_condition f -> ~ happy_condition f ->
    melancholic_condition f ->
    candidate current f melancholic
| rule_calm :
    ~ stay_condition f -> ~ energetic_condition f -> ~ happy_condition f ->
    ~ melancholic_condition f ->
    candidate current f calm.

(** Whether [detectMood], called in state [s] with features [f] at time
    [now], commits a transition: the candidate differs from the current mood
    and more than the debounce threshold has elapsed since the last
    committed transition. *)
Definition commits (s : AudioService) (f : AudioFeatures) (now : Z) : Prop :=
  detectedMood s f <> currentMood s /\
  (now - moodChangeTime s > moodChangeThreshold s)%Z.

(** The classifier run over successive frames, each with its clock value. *)
Definition detectMood_frames (s : AudioService)
  (inputs : list (AudioFeatures * Z)) : AudioService :=
  fold_left (fun s0 input => fst (detectMood s0 (fst input) (snd input)))
    inputs s.

(** Normalised magnitudes [a_i = m_i / 255], sums and means of reals. *)
Definition normalized (data : frame) : list R :=
  map (fun d => (INR (to_nat d) / 255)%R) data.

Definition Rsum (l : list R) : R := fold_right Rplus 0%R l.

Definition mean (l : list R) : R := (Rsum l / INR (length l))%R.

(** [energy = clamp0..1( max(0, mean(a_i) - noiseFloor) * 2.0 * g )] *)
Definition spec_energy (data : frame) (nf g : R) : R :=
  Rmin 1 (Rmax 0 (mean (normalized data) - nf) * 2 * g).

(** A frame whose bins [0 .. N/2) are 255 and the rest 0, with [N = 2 * k]. *)
Definition half_frame (k : nat) : frame := repeat xff k ++ repeat x00 k.

(** The total raw magnitude and the cumulative sum up to and including bin
    [i]. *)
Definition total (data : frame) : nat := list_sum (map to_nat data).

Definition cumulative (data : frame) (i : nat) : nat :=
  total (firstn (S i) data).

(** The cumulative sum at bin [i] reaches 85% of the total. *)
Definition reaches_rolloff (data : frame) (i : nat) : Prop :=
  (0.85 * INR (total data) <= INR (cumulative data i))%R.

(** [i] is the smallest bin index at which the cumulative sum reaches 85% of
    the total. *)
Definition rolloff_index (data : frame) (i : nat) : Prop :=
  (i < length data)%nat /\ reaches_rolloff data i /\
  forall j, (j < i)%nat -> ~ reaches_rolloff data j.

(** The magnitude of bin [i], and [k] being the lowest index at which the
    magnitude is maximal. *)
Definition magnitude (data : frame) (i : nat) : nat := to_nat (nth i data x00).

Definition lowest_peak (data : frame) (k : nat) : Prop :=
  (forall j, (magnitude data j <= magnitude data k)%nat) /\
  (forall j, (j < k)%nat -> (magnitude data j < magnitude data k)%nat).

(** The bins that enter the flatness: normalised values above 0.01. *)
Definition above_floor (v : R) : bool :=
  if Rlt_dec 0.01 v then true else false.

Definition qualifying (data : frame) : list R :=
  filter above_floor (normalized data).

(** Geometric mean, as the exponential of the mean of the logarithms. *)
Definition geometric_mean (l : list R) : R := exp (mean (map ln l)).

(** The service after the classification step of an activation of
    [analyzeAudio], and the result object the activation hands to
    [notifyListeners]. *)
Definition frameService (s : AudioService) (dataArray : frame) (now : Z)
  : AudioService :=
  fst (detectMood s (extractAudioFeatures s dataArray noiseFloor) now).

Definition frameResult (s : AudioService) (dataArray : frame) (now : Z)
  : AudioAnalysisResult :=
  let features := extractAudioFeatures s dataArray noiseFloor in
  let moodResult := snd (detectMood s features now) in
  {| mood := fst moodResult; moodConfidence := snd moodResult;
     features := features;
     dominantFrequency :=
       calculateDominantFrequency (frameService s dataArray now) dataArray |}.

(** An event that resumes a suspended [initialize()] with a stream. *)
Definition resumes_initialize (e : event) : bool :=
  match e with
  | MicrophoneGranted _ _ _ => true
  | _ => false
  end.

(** Two families of subscribers used in the scenarios below: in the first,
    callback 1 throws whenever it is invoked; in the second nobody throws. *)
Definition first_throws (cb : callback) (_ : AudioAnalysisResult) : bool :=
  (cb =? 1)%nat.

Definition never_throws (_ : callback) (_ : AudioAnalysisResult) : bool :=
  false.

(** What the scan knows after the bins of [pre]: [maxValue] bounds them, and
    either nothing positive was seen yet or [maxIndex] is the first bin
    holding [maxValue]. *)
Definition scan_invariant (data pre : frame) (maxIndex maxValue : nat)
  : Prop :=
  (forall j, j < length pre -> magnitude data j <= maxValue) /\
  ((maxValue = 0 /\ maxIndex = 0) \/
   (maxIndex < length pre /\ magnitude data maxIndex = maxValue /\
    forall j, j < maxIndex -> magnitude data j < maxValue)).

(** The invocations that hand [r] to each callback of [ls], in order. *)
Definition delivered (r : AudioAnalysisResult) (ls : list callback)
  : list invocation :=
  map (fun l => (l, r)) ls.

(** A service as [initialize()] leaves it, with sensitivity [g] and the
    subscribers [ls], and a world around it with one activation scheduled. *)
Definition sample_service (g : R) (ls : list callback) : AudioService :=
  {| audioContext := Some {| sampleRate := Fin 44100; closed := false |};
     analyzer := Some {| fftSize := 256 |};
     stream := Some {| tracksStopped := false |};
     isInitialized := true;
     sensitivity := Fin g; listeners := ls;
     currentMood := calm; moodChangeTime := 0; moodChangeThreshold := 100 |}.

Definition sample_world (g : R) (ls : list callback) : World :=
  {| service := sample_service g ls; pendingInitialize := 0;
     scheduledFrames := 1; invocations := [] |}.

(** The feature set of silence. *)
Definition silence : AudioFeatures :=
  {| energy := Fin 0; rms := Fin 0; zcr := Fin 0;
     spectralCentroid := Fin 0; spectralFlatness := Fin 0;
     spectralRolloff := Fin 0 |}.

(** Feature sets of a loud, noisy frame and of a quiet one. *)
Definition loud_features : AudioFeatures :=
  {| energy := Fin 0.5; zcr := Fin 0.3; spectralCentroid := Fin 0.1;
     spectralFlatness := Fin 0.1; spectralRolloff := Fin 0.5;
     rms := Fin 0.5 |}.

Definition quiet_features : AudioFeatures :=
  {| energy := Fin 0.1; zcr := Fin 0.1; spectralCentroid := Fin 0.1;
     spectralFlatness := Fin 0.1; spectralRolloff := Fin 0.5;
     rms := Fin 0.1 |}.

(** A finite number in the unit interval. *)
Definition in_unit (x : number) : Prop :=
  exists r : R, x = Fin r /\ (0 <= r <= 1)%R.

(** The sum of the squares of a list of reals. *)
Definition squares (l : list R) : list R := map (fun a => (a * a)%R) l.

(** The sum of the values of a list weighted by their positions, counted
    from [i]. *)
Fixpoint weighted_sum (l : list R) (i : nat) : R :=
  match l with
  | [] => 0%R
  | a :: rest => (INR i * a + weighted_sum rest (S i))%R
  end.

(** The classification steps of a run of frames, each with its clock. *)
Definition analyzeFrames (s : AudioService) (inputs : list (frame * Z))
  : AudioService :=
  fold_left (fun s0 input => frameService s0 (fst input) (snd input))
    inputs s.

(** Events that change the registry of subscribers, events that analyse a
    frame, and the number of resumed [initialize()] calls in a run. *)
Definition changes_registry (e : event) : bool :=
  match e with
  | CallSubscribe _ | InvokeUnsubscribe _ => true
  | _ => false
  end.

Definition analyses_frame (e : event) : bool :=
  match e with
  | MicrophoneGranted _ _ _ | AnimationFrame _ _ => true
  | _ => false
  end.

Definition sets_NaN_sensitivity (e : event) : bool :=
  match e with
  | CallSetSensitivity NaN => true
  | _ => false
  end.

Definition granted_count (events : list event) : nat :=
  length (filter resumes_initialize events).

(** A bin is above the midpoint when its magnitude exceeds 128; a sign
    change is a pair of consecutive bins of which exactly one is above the
    midpoint.  [sign_changes] counts the sign changes of a frame. *)
Definition above_midpoint (d : byte) : bool := (128 <? to_nat d)%nat.

Definition sign_changes (data : frame) : nat :=
  length
    (filter (fun pair => xorb (above_midpoint (fst pair))
                              (above_midpoint (snd pair)))
       (combine data (tl data))).

(** The particle system over a run of animation frames, each with the
    result current at that time and its [delta]. *)
Definition animate {color : Type} (fround : number -> number)
  (p : ParticleSystem color)
  (frames : list (option AudioAnalysisResult * number))
  : ParticleSystem color :=
  fold_left (fun p0 fr => onFrame fround p0 (fst fr) (snd fr)) frames p.

(** An energy as the service publishes it: [NaN] or a finite value in
    [0,1]. *)
Definition published_energy (x : number) : Prop := x = NaN \/ in_unit x.



(** A result of a loud frame, and a mounted particle system of one particle
    in its initial state; its colours are named by the mood whose palette
    they come from. *)
Definition sample_result : AudioAnalysisResult :=
  {| features := loud_features; mood := energetic; moodConfidence := Fin 1;
     dominantFrequency := Fin 440 |}.

(** A conversion that stores every number as it is. *)
Definition sample_fround (x : number) : number := x.

Definition sample_particles : ParticleSystem MoodType :=
  {| mounted := true; rotationX := Fin 0; rotationY := Fin 0;
     positions := [Fin 2; Fin 0; Fin 0]; needsUpdate := false;
     originalPositions := Some [Fin 2; Fin 0; Fin 0];
     currentExpansion := Fin 1; lastMood := calm; materialColor := calm;
     materialSize := Fin 0.1 |}.

End SpecificationRules.

(* ================================================================== *)
(** ** Mood classification: rule order and debouncing *)
(* ================================================================== *)

Section MoodTheorems.

Local Open Scope js_scope.

Lemma andb_condition (a b : bool) :
  (a = true /\ b = true) <-> a && b = true.
Proof. symmetry. apply andb_true_iff. Qed.

Lemma detectedMood_candidate (s : AudioService) (f : AudioFeatures) :
  candidate (currentMood s) f (detectedMood s f).
Proof.
  unfold detectedMood.
  destruct (energy f <? Fin 0.03) eqn:E1.
  { now apply rule_stay. }
  assert (N1 : ~ stay_condition f) by (unfold stay_condition; congruence).
  destruct ((energy f >? Fin 0.3) && (zcr f >? Fin 0.2)) eqn:E2.
  { apply rule_energetic; [assumption | now apply andb_condition]. }
  assert (N2 : ~ energetic_condition f).
  { unfold energetic_condition. rewrite andb_condition. congruence. }
  destruct ((energy f >? Fin 0.2) && (spectralCentroid f >? Fin 0.3)) eqn:E3.
  { apply rule_happy; [assumption .. | now apply andb_condition]. }
  assert (N3 : ~ happy_condition f).
  { unfold happy_condition. rewrite andb_condition. congruence. }
  destruct ((spectralFlatness f >? Fin 0.15) && (energy f <? Fin 0.15)) eqn:E4.
  { apply rule_melancholic; [assumption .. | now apply andb_condition]. }
  apply rule_calm; try assumption.
  unfold melancholic_condition. rewrite andb_condition. congruence.
Qed.

Lemma candidate_functional (current : MoodType) (f : AudioFeatures)
  (m1 m2 : MoodType) :
  candidate current f m1 -> candidate current f m2 -> m1 = m2.
Proof.
  intros H1 H2.
  inversion H1; subst; inversion H2; subst; try reflexivity; contradiction.
Qed.

(** C1. The candidate mood the classifier computes from a feature set is the
    one the five rules give when they are tried in priority order and the
    first match wins: the current mood when [energy < 0.03]; else energetic
    when [energy > 0.3] and [zcr > 0.2]; else happy when [energy > 0.2] and
    [spectralCentroid > 0.3]; else melancholic when [spectralFlatness > 0.15]
    and [energy < 0.15]; calm otherwise. *)
Theorem detectMood_rule_order (s : AudioService) (f : AudioFeatures)
  (m : MoodType) :
  candidate (currentMood s) f m <-> detectedMood s f = m.
Proof.
  split.
  - intros H. eapply candidate_functional; [apply detectedMood_candidate | exact H].
  - intros <-. apply detectedMood_candidate.
Qed.

Lemma detectMood_commit (s : AudioService) (f : AudioFeatures) (now : Z) :
  commits s f now ->
  fst (detectMood s f now) = commitMood s (detectedMood s f) now.
Proof.
  intros [Hne Hgt]. unfold detectMood. cbn [fst].
  destruct (MoodType_eq_dec (detectedMood s f) (currentMood s)) as [e | _].
  { contradiction. }
  destruct (now - moodChangeTime s >? moodChangeThreshold s)%Z eqn:E.
  - reflexivity.
  - rewrite Z.gtb_ltb, Z.ltb_ge in E. lia.
Qed.

Lemma detectMood_retain (s : AudioService) (f : AudioFeatures) (now : Z) :
  ~ commits s f now -> fst (detectMood s f now) = s.
Proof.
  intros Hn. unfold detectMood. cbn [fst].
  destruct (MoodType_eq_dec (detectedMood s f) (currentMood s)) as [e | ne].
  { reflexivity. }
  destruct (now - moodChangeTime s >? moodChangeThreshold s)%Z eqn:E.
  - exfalso. apply Hn. split; [assumption |].
    rewrite Z.gtb_ltb in E. apply Z.ltb_lt in E. lia.
  - reflexivity.
Qed.

Lemma commits_dec (s : AudioService) (f : AudioFeatures) (now : Z) :
  {commits s f now} + {~ commits s f now}.
Proof.
  unfold commits.
  destruct (MoodType_eq_dec (detectedMood s f) (currentMood s)) as [e | ne].
  - right. intros [H _]. contradiction.
  - destruct (Z_gt_dec (now - moodChangeTime s) (moodChangeThreshold s)).
    + left. now split.
    + right. intros [_ H]. contradiction.
Qed.

Lemma detectMood_threshold (s : AudioService) (f : AudioFeatures) (now : Z) :
  moodChangeThreshold (fst (detectMood s f now)) = moodChangeThreshold s.
Proof.
  destruct (commits_dec s f now) as [c | n].
  - now rewrite detectMood_commit.
  - now rewrite detectMood_retain.
Qed.

Lemma detectMood_time_step (s : AudioService) (f : AudioFeatures) (now : Z) :
  (0 <= moodChangeThreshold s)%Z ->
  (moodChangeTime s <= moodChangeTime (fst (detectMood s f now)))%Z.
Proof.
  intros Hth. destruct (commits_dec s f now) as [c | n].
  - rewrite detectMood_commit by assumption. cbn. destruct c as [_ c]. lia.
  - rewrite detectMood_retain by assumption. lia.
Qed.

Lemma detectMood_frames_cons (s : AudioService) (f : AudioFeatures) (now : Z)
  (rest : list (AudioFeatures * Z)) :
  detectMood_frames s ((f, now) :: rest)
  = detectMood_frames (fst (detectMood s f now)) rest.
Proof. reflexivity. Qed.

Lemma detectMood_frames_time (inputs : list (AudioFeatures * Z)) :
  forall s, (0 <= moodChangeThreshold s)%Z ->
  (moodChangeTime s <= moodChangeTime (detectMood_frames s inputs))%Z.
Proof.
  induction inputs as [| [f now] rest IH]; intros s Hth.
  - cbn. lia.
  - rewrite detectMood_frames_cons.
    etransitivity; [apply (detectMood_time_step s f now Hth) |].
    apply IH. now rewrite detectMood_threshold.
Qed.

(** C2. When the candidate mood differs from the current mood, the
    transition (current mood set to the candidate, stored timestamp set to
    the clock) is committed if and only if the time elapsed since the last
    committed transition exceeds the debounce threshold; otherwise, and when
    the candidate is the current mood, the state is left as it is, so the
    timestamp changes on committed transitions only.  The mood reported is
    the current mood after the call.  A candidate change that arrives no more
    than the threshold after a committed one is not committed.  With a
    non-negative threshold the stored timestamp never decreases, over one
    frame and over any run of frames. *)
Theorem detectMood_debounce (s : AudioService) (f : AudioFeatures) (now : Z) :
  (0 <= moodChangeThreshold s)%Z ->
  let s' := fst (detectMood s f now) in
  (detectedMood s f <> currentMood s ->
     ((now - moodChangeTime s > moodChangeThreshold s)%Z <->
      (currentMood s' = detectedMood s f /\ moodChangeTime s' = now)))
  /\ (commits s f now -> s' = commitMood s (detectedMood s f) now)
  /\ (~ commits s f now -> s' = s)
  /\ fst (snd (detectMood s f now)) = currentMood s'
  /\ (commits s f now ->
      forall f2 now2, (now2 - now <= moodChangeThreshold s)%Z ->
        fst (detectMood s' f2 now2) = s')
  /\ (moodChangeTime s <= moodChangeTime s')%Z
  /\ (forall inputs,
        (moodChangeTime s <= moodChangeTime (detectMood_frames s inputs))%Z).
Proof.
  intros Hth s'. subst s'.
  split; [| split; [| split; [| split; [| split; [| split]]]]].
  - intros Hne. split.
    + intros Hgt. now rewrite detectMood_commit by (split; assumption).
    + intros [Hm Ht].
      destruct (commits_dec s f now) as [c | n]; [apply c |].
      rewrite detectMood_retain in Hm by assumption. congruence.
  - apply detectMood_commit.
  - apply detectMood_retain.
  - reflexivity.
  - intros c f2 now2 Hclose.
    apply detectMood_retain. intros [_ Hgt].
    rewrite detectMood_commit in Hgt by assumption.
    cbn in Hgt. lia.
  - now apply detectMood_time_step.
  - intros inputs. now apply detectMood_frames_time.
Qed.

End MoodTheorems.

(* ================================================================== *)
(** ** Arithmetic of finite numbers *)
(* ================================================================== *)

Section NumberLemmas.

Local Open Scope js_scope.
Local Open Scope R_scope.

Lemma Fin_eq (a b : R) : a = b -> Fin a = Fin b.
Proof. now intros ->. Qed.

Lemma div_Fin (a b : R) : b <> 0 -> (Fin a / Fin b)%js = Fin (a / b).
Proof.
  intros Hb. unfold div. destruct (Req_dec_T b 0); [contradiction | reflexivity].
Qed.

Lemma div_zero_zero : (Fin 0 / Fin 0)%js = NaN.
Proof.
  unfold div, inf_times.
  destruct (Req_dec_T 0 0) as [_ | n]; [reflexivity | now elim n].
Qed.

Lemma ltb_Fin_true (a b : R) : a < b -> (Fin a <? Fin b)%js = true.
Proof. intros H. unfold ltb. destruct (Rlt_dec a b); [reflexivity | contradiction]. Qed.

Lemma ltb_Fin_false (a b : R) : b <= a -> (Fin a <? Fin b)%js = false.
Proof. intros H. unfold ltb. destruct (Rlt_dec a b); [lra | reflexivity]. Qed.

Lemma geb_Fin_true (a b : R) : b <= a -> (Fin a >=? Fin b)%js = true.
Proof. intros H. unfold geb. destruct (Rle_dec b a); [reflexivity | contradiction]. Qed.

Lemma geb_Fin_false (a b : R) : a < b -> (Fin a >=? Fin b)%js = false.
Proof. intros H. unfold geb. destruct (Rle_dec b a); [lra | reflexivity]. Qed.

Lemma strict_eq_Fin_true (a : R) : (Fin a === Fin a)%js = true.
Proof. unfold strict_eq. destruct (Req_dec_T a a); [reflexivity | now elim n]. Qed.

Lemma strict_eq_Fin_false (a b : R) : a <> b -> (Fin a === Fin b)%js = false.
Proof. intros H. unfold strict_eq. destruct (Req_dec_T a b); [contradiction | reflexivity]. Qed.

Lemma Math_max_Fin (a b : R) : Math_max (Fin a) (Fin b) = Fin (Rmax a b).
Proof.
  unfold Math_max, ltb, Rmax.
  destruct (Rlt_dec a b), (Rle_dec a b); try reflexivity; try lra.
  f_equal. lra.
Qed.

Lemma Math_min_Fin (a b : R) : Math_min (Fin a) (Fin b) = Fin (Rmin a b).
Proof.
  unfold Math_min, ltb, Rmin.
  destruct (Rlt_dec b a), (Rle_dec a b); try reflexivity; try lra.
Qed.

Lemma Math_sqrt_Fin (a : R) : 0 <= a -> Math_sqrt (Fin a) = Fin (sqrt a).
Proof. intros H. unfold Math_sqrt. destruct (Rlt_dec a 0); [lra | reflexivity]. Qed.

Lemma Math_log_Fin (a : R) : 0 < a -> Math_log (Fin a) = Fin (ln a).
Proof.
  intros H. unfold Math_log.
  destruct (Rlt_dec a 0); [lra |]. destruct (Req_dec_T a 0); [lra | reflexivity].
Qed.

Lemma INR_pos (n : nat) : (0 < n)%nat -> 0 < INR n.
Proof. intros H. apply lt_0_INR. exact H. Qed.

End NumberLemmas.

(* ================================================================== *)
(** ** Energy *)
(* ================================================================== *)

Section EnergyTheorems.

Local Open Scope R_scope.

Lemma total_nil : total [] = 0%nat.
Proof. reflexivity. Qed.

Lemma total_cons (d : byte) (rest : frame) :
  total (d :: rest) = (to_nat d + total rest)%nat.
Proof. reflexivity. Qed.

Lemma sumLoop_total (data : frame) :
  forall acc, sumLoop data acc = (acc + total data)%nat.
Proof.
  induction data as [| d rest IH]; intros acc; cbn [sumLoop].
  - rewrite total_nil. lia.
  - rewrite IH, total_cons. lia.
Qed.

Lemma Rsum_normalized (data : frame) :
  Rsum (normalized data) = INR (total data) / 255.
Proof.
  induction data as [| d rest IH].
  - rewrite total_nil. cbn. lra.
  - rewrite total_cons, plus_INR.
    change (Rsum (normalized (d :: rest)))
      with (INR (to_nat d) / 255 + Rsum (normalized rest)).
    rewrite IH. lra.
Qed.

Lemma computeEnergy_spec (data : frame) (nf g : R) :
  data <> [] ->
  computeEnergy (Fin g) data (Fin nf) = Fin (spec_energy data nf g).
Proof.
  intros Hne. unfold computeEnergy, spec_energy.
  assert (Hlen : (0 < length data)%nat) by (destruct data; [congruence | cbn; lia]).
  rewrite sumLoop_total. cbn [Nat.add]. unfold of_nat.
  rewrite div_Fin.
  2:{ rewrite mult_INR. apply Rmult_integral_contrapositive_currified.
      - apply Rgt_not_eq, INR_pos, Hlen.
      - cbn. lra. }
  cbn [sub neg add mul].
  rewrite Math_max_Fin. cbn [mul]. rewrite Math_min_Fin.
  do 3 f_equal. f_equal. f_equal.
  unfold mean. rewrite Rsum_normalized. unfold normalized. rewrite length_map.
  rewrite mult_INR. replace (INR 255) with 255 by (cbn; lra).
  field. apply Rgt_not_eq, INR_pos, Hlen.
Qed.

Lemma total_app (a b : frame) : total (a ++ b) = (total a + total b)%nat.
Proof.
  induction a as [| d a IH].
  - reflexivity.
  - cbn [app]. rewrite !total_cons, IH. lia.
Qed.

Lemma total_repeat (d : byte) (k : nat) :
  total (repeat d k) = (k * to_nat d)%nat.
Proof.
  induction k as [| k IH].
  - reflexivity.
  - cbn [repeat]. rewrite total_cons, IH. lia.
Qed.





End EnergyTheorems.

(* ================================================================== *)
(** ** Spectral rolloff *)
(* ================================================================== *)

Section RolloffTheorems.

Local Open Scope R_scope.

Lemma cumulative_split (pre rest : frame) (d : byte) :
  cumulative (pre ++ d :: rest) (length pre) = (total pre + to_nat d)%nat.
Proof.
  unfold cumulative.
  replace (S (length pre)) with (length (pre ++ [d])) by (rewrite length_app; cbn; lia).
  replace (pre ++ d :: rest) with ((pre ++ [d]) ++ rest) by (now rewrite <- app_assoc).
  rewrite firstn_app, firstn_all, Nat.sub_diag. cbn [firstn].
  rewrite app_nil_r, total_app, total_cons, total_nil. lia.
Qed.

Lemma cumulative_last (data : frame) :
  data <> [] -> cumulative data (Nat.pred (length data)) = total data.
Proof.
  intros Hne. unfold cumulative.
  destruct data as [| d rest]; [congruence |].
  cbn [length Nat.pred]. change (S (length rest)) with (length (d :: rest)).
  now rewrite firstn_all.
Qed.

(** The scan of a frame with positive total: it stops at the smallest index
    where 85% of the total is reached. *)
Lemma rolloffLoop_reach (bufferLength : nat) (r0 : number) (suf : frame) :
  forall (pre data : frame),
    data = pre ++ suf ->
    (0 < total data)%nat ->
    (forall j, (j < length pre)%nat -> ~ reaches_rolloff data j) ->
    exists i,
      rolloff_index data i /\
      rolloffLoop suf (length pre) (total pre) (total data) bufferLength
        (Fin 0.85) r0
      = (of_nat i / of_nat bufferLength)%js.
Proof.
  induction suf as [| d rest IH]; intros pre data Hdata Hpos Hbefore.
  - exfalso. rewrite app_nil_r in Hdata. subst pre.
    assert (Hne : data <> []) by (intros ->; rewrite total_nil in Hpos; lia).
    apply (Hbefore (Nat.pred (length data))).
    + destruct data; [congruence | cbn; lia].
    + unfold reaches_rolloff. rewrite cumulative_last by assumption.
      assert (0 <= INR (total data)) by apply pos_INR. lra.
  - cbn [rolloffLoop].
    assert (Hcum : cumulative data (length pre) = (total pre + to_nat d)%nat).
    { subst data. apply cumulative_split. }
    assert (HT : 0 < INR (total data)) by now apply INR_pos.
    unfold of_nat at 1 2. rewrite div_Fin by lra.
    destruct (Rle_dec 0.85 (INR (total pre + to_nat d) / INR (total data)))
      as [Hge | Hlt].
    + rewrite geb_Fin_true by assumption.
      exists (length pre). split; [| reflexivity].
      split; [| split].
      * subst data. rewrite length_app. cbn. lia.
      * unfold reaches_rolloff. rewrite Hcum.
        apply (Rmult_le_compat_r (INR (total data))) in Hge; [| lra].
        unfold Rdiv in Hge. rewrite Rmult_assoc, Rinv_l in Hge by lra. lra.
      * exact Hbefore.
    + rewrite geb_Fin_false by lra.
      specialize (IH (pre ++ [d]) data).
      rewrite length_app, total_app, total_cons, total_nil in IH.
      cbn [length] in IH.
      replace (length pre + 1)%nat with (S (length pre)) in IH by lia.
      replace (total pre + (to_nat d + 0))%nat
        with (total pre + to_nat d)%nat in IH by lia.
      apply IH.
      * subst data. now rewrite <- app_assoc.
      * assumption.
      * intros j Hj Hreach.
        assert (Hcase : (j < length pre)%nat \/ j = length pre) by lia.
        destruct Hcase as [Hj' | ->].
        -- now apply (Hbefore j).
        -- unfold reaches_rolloff in Hreach. rewrite Hcum in Hreach.
           apply Hlt. apply (Rmult_le_reg_r (INR (total data))); [lra |].
           unfold Rdiv. rewrite Rmult_assoc, Rinv_l by lra. lra.
Qed.

(** The scan of a silent frame: every quotient is [0 / 0], which is [NaN],
    no comparison succeeds and the initial value is returned. *)
Lemma rolloffLoop_silent (bufferLength : nat) (r0 : number) (suf : frame) :
  forall i, total suf = 0%nat ->
  rolloffLoop suf i 0 0 bufferLength (Fin 0.85) r0 = r0.
Proof.
  induction suf as [| d rest IH]; intros i Hz.
  - reflexivity.
  - rewrite total_cons in Hz. cbn [rolloffLoop].
    replace (0 + to_nat d)%nat with 0%nat by lia.
    unfold of_nat at 1 2. cbn [INR]. rewrite div_zero_zero. cbn [geb].
    apply IH. lia.
Qed.

Lemma computeSpectralRolloff_cases (data : frame) :
  (total data = 0%nat /\ computeSpectralRolloff data = Fin 0)
  \/ ((0 < total data)%nat /\
      exists i, rolloff_index data i /\
                computeSpectralRolloff data = Fin (INR i / INR (length data))).
Proof.
  unfold computeSpectralRolloff.
  rewrite sumLoop_total. cbn [Nat.add].
  destruct (Nat.eq_dec (total data) 0) as [Hz | Hnz].
  - left. split; [assumption |]. rewrite Hz. now apply rolloffLoop_silent.
  - right. split; [lia |].
    destruct (rolloffLoop_reach (length data) (Fin 0) data [] data)
      as [i [Hi Heq]]; [reflexivity | lia | cbn; lia |].
    exists i. split; [assumption |].
    cbn [length] in Heq. rewrite total_nil in Heq. rewrite Heq.
    unfold of_nat. apply div_Fin.
    destruct Hi as [Hlt _]. apply Rgt_not_eq, INR_pos. lia.
Qed.

Lemma rolloff_index_unique (data : frame) (i j : nat) :
  rolloff_index data i -> rolloff_index data j -> i = j.
Proof.
  intros [_ [Hi Hbi]] [_ [Hj Hbj]].
  destruct (Nat.lt_trichotomy i j) as [Hlt | [Heq | Hgt]].
  - elim (Hbj i Hlt). exact Hi.
  - assumption.
  - elim (Hbi j Hgt). exact Hj.
Qed.

(** The frame [255, 255, 0, 0]: the total 510 is reached at bin 1, and
    255 is less than 85% of it. *)
Example rolloff_example :
  computeSpectralRolloff [xff; xff; x00; x00] = Fin (1 / 4).
Proof.
  destruct (computeSpectralRolloff_cases [xff; xff; x00; x00])
    as [[Hz _] | [_ [i [Hi ->]]]]; [discriminate Hz |].
  assert (Hone : rolloff_index [xff; xff; x00; x00] 1).
  { unfold rolloff_index, reaches_rolloff.
    change (total [xff; xff; x00; x00]) with 510%nat.
    split; [cbn; lia |]. split.
    - change (cumulative [xff; xff; x00; x00] 1) with 510%nat.
      rewrite INR_IZR_INZ. change (Z.of_nat 510) with 510%Z. lra.
    - intros j Hj. assert (j = 0%nat) as -> by lia.
      change (cumulative [xff; xff; x00; x00] 0) with 255%nat.
      rewrite !INR_IZR_INZ. change (Z.of_nat 510) with 510%Z.
      change (Z.of_nat 255) with 255%Z. lra. }
  rewrite (rolloff_index_unique _ _ _ Hi Hone).
  apply Fin_eq. cbn. lra.
Qed.

(** C5. The spectral rolloff of a frame is [i* / N], with [i*] the smallest
    bin index at which the cumulative raw magnitude sum reaches 85% of the
    total raw magnitude sum; for a frame whose total is 0 it is 0. *)
Theorem spectralRolloff_formula (s : AudioService) (data : frame)
  (nf : number) :
  let r := spectralRolloff (extractAudioFeatures s data nf) in
  (total data = 0%nat /\ r = Fin 0)
  \/ ((0 < total data)%nat /\
      exists i, rolloff_index data i /\ r = Fin (INR i / INR (length data))).
Proof.
  cbn [extractAudioFeatures spectralRolloff].
  apply computeSpectralRolloff_cases.
Qed.

End RolloffTheorems.

(* ================================================================== *)
(** ** Dominant frequency *)
(* ================================================================== *)

Section DominantFrequencyTheorems.

Lemma magnitude_middle (pre rest : frame) (d : byte) :
  magnitude (pre ++ d :: rest) (length pre) = to_nat d.
Proof. unfold magnitude. now rewrite nth_middle. Qed.

Lemma magnitude_beyond (data : frame) (j : nat) :
  length data <= j -> magnitude data j = 0.
Proof. intros H. unfold magnitude. now rewrite nth_overflow. Qed.

Lemma dominantLoop_peak (suf : frame) :
  forall (pre data : frame) (maxIndex maxValue : nat),
    data = pre ++ suf ->
    scan_invariant data pre maxIndex maxValue ->
    let k := dominantLoop suf (length pre) maxIndex maxValue in
    lowest_peak data k /\ k <= Nat.pred (length data).
Proof.
  induction suf as [| d rest IH]; intros pre data maxIndex maxValue Hdata Hinv.
  - cbn [dominantLoop]. rewrite app_nil_r in Hdata. subst pre.
    destruct Hinv as [Hbound [[Hv Hk] | [Hk [Hm Hlow]]]].
    + subst maxValue maxIndex. split; [| lia]. split.
      * intros j. destruct (Nat.lt_ge_cases j (length data)) as [Hj | Hj].
        -- specialize (Hbound j Hj). lia.
        -- rewrite magnitude_beyond by assumption. lia.
      * intros j Hj. lia.
    + split; [| lia]. split.
      * intros j. rewrite Hm.
        destruct (Nat.lt_ge_cases j (length data)) as [Hj | Hj].
        -- now apply Hbound.
        -- rewrite magnitude_beyond by assumption. lia.
      * intros j Hj. rewrite Hm. now apply Hlow.
  - cbn [dominantLoop].
    assert (Hd : magnitude data (length pre) = to_nat d).
    { subst data. apply magnitude_middle. }
    assert (Hdata' : data = (pre ++ [d]) ++ rest).
    { subst data. now rewrite <- app_assoc. }
    assert (Hlen : length (pre ++ [d]) = S (length pre)).
    { rewrite length_app. cbn. lia. }
    destruct Hinv as [Hbound Hcase].
    destruct (maxValue <? to_nat d) eqn:E.
    + apply Nat.ltb_lt in E.
      specialize (IH (pre ++ [d]) data (length pre) (to_nat d) Hdata').
      rewrite Hlen in IH. apply IH. split.
      * intros j Hj.
        assert (Hc : j < length pre \/ j = length pre) by lia.
        destruct Hc as [Hj' | ->]; [specialize (Hbound j Hj') |]; lia.
      * right. split; [lia | split; [assumption |]].
        intros j Hj. specialize (Hbound j Hj). lia.
    + apply Nat.ltb_ge in E.
      specialize (IH (pre ++ [d]) data maxIndex maxValue Hdata').
      rewrite Hlen in IH. apply IH. split.
      * intros j Hj.
        assert (Hc : j < length pre \/ j = length pre) by lia.
        destruct Hc as [Hj' | ->]; [specialize (Hbound j Hj') |]; lia.
      * destruct Hcase as [Hz | [Hk [Hm Hlow]]]; [now left | right].
        split; [lia | now split].
Qed.

Lemma dominantLoop_lowest_peak (data : frame) :
  lowest_peak data (dominantLoop data 0 0 0) /\
  dominantLoop data 0 0 0 <= Nat.pred (length data).
Proof.
  apply (dominantLoop_peak data [] data 0 0); [reflexivity |].
  split; [cbn; lia | now left].
Qed.

Lemma lowest_peak_unique (data : frame) (k1 k2 : nat) :
  lowest_peak data k1 -> lowest_peak data k2 -> k1 = k2.
Proof.
  intros [Hmax1 Hlow1] [Hmax2 Hlow2].
  destruct (Nat.lt_trichotomy k1 k2) as [Hlt | [Heq | Hgt]].
  - specialize (Hlow2 k1 Hlt). specialize (Hmax1 k2). lia.
  - assumption.
  - specialize (Hlow1 k2 Hgt). specialize (Hmax2 k1). lia.
Qed.

Local Open Scope js_scope.

(** C6. With an analyser and an audio context, the dominant frequency is
    [maxBinIndex * sampleRate / (fftSize * 2)], where [maxBinIndex] is the
    lowest bin index at which the magnitude is maximal (the scan moves only
    on a strictly larger magnitude); this holds for both revisions of the
    function, the older one substituting 44100 for a missing or zero sample
    rate.  Without an analyser the result is 0. *)
Theorem dominantFrequency_formula (s : AudioService) (data : frame) :
  (analyzer s = None ->
     calculateDominantFrequency s data = Fin 0 /\
     calculateDominantFrequency_fallback s data = Fin 0)
  /\ (audioContext s = None -> calculateDominantFrequency s data = Fin 0)
  /\ (forall an ctx,
        analyzer s = Some an -> audioContext s = Some ctx ->
        exists k,
          lowest_peak data k /\ (k <= Nat.pred (length data))%nat /\
          calculateDominantFrequency s data
          = of_nat k * sampleRate ctx / of_nat (fftSize an * 2) /\
          (truthy (sampleRate ctx) = true ->
           calculateDominantFrequency_fallback s data
           = of_nat k * sampleRate ctx / of_nat (fftSize an * 2))).
Proof.
  unfold calculateDominantFrequency, calculateDominantFrequency_fallback.
  split; [| split].
  - intros ->. now split.
  - intros ->. now destruct (analyzer s).
  - intros an ctx -> ->.
    exists (dominantLoop data 0 0 0).
    destruct (dominantLoop_lowest_peak data) as [Hpeak Hle].
    split; [assumption | split; [assumption | split; [reflexivity |]]].
    intros ->. reflexivity.
Qed.

End DominantFrequencyTheorems.

(* ================================================================== *)
(** ** Silent frames *)
(* ================================================================== *)

Section SilentFrameTheorems.

Local Open Scope R_scope.

Lemma amplitude_zero : (of_nat (to_nat x00) / Fin 255)%js = Fin 0.
Proof.
  change (to_nat x00) with 0%nat. unfold of_nat. cbn [INR].
  rewrite div_Fin by lra. apply Fin_eq. lra.
Qed.

Lemma zero_over_length (n : nat) :
  (0 < n)%nat -> (Fin 0 / of_nat n)%js = Fin 0.
Proof.
  intros Hn. unfold of_nat.
  assert (0 < INR n) by now apply INR_pos.
  rewrite div_Fin by lra. apply Fin_eq. unfold Rdiv. apply Rmult_0_l.
Qed.

Lemma silent_total (n : nat) : total (repeat x00 n) = 0%nat.
Proof. rewrite total_repeat. change (to_nat x00) with 0%nat. lia. Qed.

Lemma silent_energy (n : nat) (nf g : R) :
  (0 < n)%nat -> 0 <= nf ->
  computeEnergy (Fin g) (repeat x00 n) (Fin nf) = Fin 0.
Proof.
  intros Hn Hnf. rewrite computeEnergy_spec by (destruct n; [lia | discriminate]).
  apply Fin_eq. unfold spec_energy, mean.
  rewrite Rsum_normalized, silent_total. cbn [INR].
  replace (0 / 255 / INR (length (normalized (repeat x00 n)))) with 0
    by (unfold Rdiv; now rewrite !Rmult_0_l).
  rewrite Rmax_left by lra. rewrite Rmin_right by lra. lra.
Qed.

Lemma silent_rmsLoop (n : nat) : rmsLoop (repeat x00 n) (Fin 0) = Fin 0.
Proof.
  induction n as [| n IH]; [reflexivity |].
  cbn [repeat rmsLoop]. rewrite amplitude_zero. unfold pow2. cbn [mul add].
  replace (0 + 0 * 0) with 0 by lra. exact IH.
Qed.

Lemma silent_rms (n : nat) : (0 < n)%nat -> computeRms (repeat x00 n) = Fin 0.
Proof.
  intros Hn. unfold computeRms. rewrite silent_rmsLoop, repeat_length.
  rewrite zero_over_length by assumption.
  rewrite Math_sqrt_Fin by lra. apply Fin_eq, sqrt_0.
Qed.

Lemma silent_zcrLoop (n : nat) : zcrLoop (repeat x00 n) false 0 = 0%nat.
Proof.
  induction n as [| n IH]; [reflexivity |].
  cbn [repeat zcrLoop]. change (signOf x00) with false. cbn [Bool.eqb]. exact IH.
Qed.

Lemma silent_zcr (n : nat) : (0 < n)%nat -> computeZcr (repeat x00 n) = Fin 0.
Proof.
  intros Hn. unfold computeZcr. rewrite repeat_length.
  destruct n as [| n]; [lia |]. cbn [repeat tl].
  change (signOf x00) with false. rewrite silent_zcrLoop.
  change (of_nat 0) with (Fin 0). now apply zero_over_length.
Qed.

Lemma silent_centroidLoop (n : nat) :
  forall i, exists numerator,
    centroidLoop (repeat x00 n) i (Fin 0) (Fin 0) = (numerator, Fin 0).
Proof.
  induction n as [| n IH]; intros i.
  - exists (Fin 0). reflexivity.
  - cbn [repeat centroidLoop]. rewrite amplitude_zero.
    unfold of_nat. cbn [mul add].
    replace (0 + INR i * 0) with 0 by lra. replace (0 + 0) with 0 by lra.
    apply IH.
Qed.

Lemma silent_centroid (n : nat) : computeSpectralCentroid (repeat x00 n) = Fin 0.
Proof.
  unfold computeSpectralCentroid.
  destruct (silent_centroidLoop n 0%nat) as [numerator ->].
  now rewrite strict_eq_Fin_true.
Qed.

Lemma silent_flatnessLoop (n : nat) :
  flatnessLoop (repeat x00 n) (Fin 0) (Fin 0) 0 = (Fin 0, Fin 0, 0%nat).
Proof.
  induction n as [| n IH]; [reflexivity |].
  cbn [repeat flatnessLoop]. rewrite amplitude_zero.
  unfold gtb. rewrite ltb_Fin_false by lra. exact IH.
Qed.

Lemma silent_flatness (n : nat) : computeSpectralFlatness (repeat x00 n) = Fin 0.
Proof.
  unfold computeSpectralFlatness. rewrite silent_flatnessLoop.
  cbn [Nat.ltb Nat.leb]. unfold gtb.
  now rewrite ltb_Fin_false by lra.
Qed.

Lemma silent_rolloff (n : nat) : computeSpectralRolloff (repeat x00 n) = Fin 0.
Proof.
  unfold computeSpectralRolloff. rewrite sumLoop_total, silent_total.
  cbn [Nat.add]. apply rolloffLoop_silent, silent_total.
Qed.

Lemma extractAudioFeatures_silent (s : AudioService) (n : nat) (nf g : R) :
  (0 < n)%nat -> 0 <= nf -> sensitivity s = Fin g ->
  extractAudioFeatures s (repeat x00 n) (Fin nf) = silence.
Proof.
  intros Hn Hnf Hs. unfold extractAudioFeatures. rewrite Hs.
  rewrite silent_energy, silent_rms, silent_zcr by assumption.
  now rewrite silent_centroid, silent_flatness, silent_rolloff.
Qed.

(** Below the energy of the stay rule the classifier changes nothing. *)
Lemma detectMood_stay (s : AudioService) (f : AudioFeatures) (now : Z) :
  (energy f <? Fin 0.03)%js = true ->
  detectMood s f now = (s, (currentMood s, Fin 1)).
Proof.
  intros Hlow. unfold detectMood, detectedMood. rewrite Hlow.
  destruct (MoodType_eq_dec (currentMood s) (currentMood s)) as [_ | ne];
    [reflexivity | now elim ne].
Qed.

(** C7. For a frame of [n > 0] bins that are all 0 (with the non-negative
    noise floor and a finite sensitivity), the six features are 0, and the
    classifier reports the mood that was current and leaves its state as it
    was: no transition is committed. *)
Theorem silent_frame_features (s : AudioService) (n : nat) (nf g : R)
  (now : Z) :
  (0 < n)%nat -> 0 <= nf -> sensitivity s = Fin g ->
  let f := extractAudioFeatures s (repeat x00 n) (Fin nf) in
  f = {| energy := Fin 0; rms := Fin 0; zcr := Fin 0;
         spectralCentroid := Fin 0; spectralFlatness := Fin 0;
         spectralRolloff := Fin 0 |}
  /\ detectMood s f now = (s, (currentMood s, Fin 1)).
Proof.
  intros Hn Hnf Hs f. subst f.
  rewrite (extractAudioFeatures_silent s n nf g Hn Hnf Hs).
  split; [reflexivity |].
  apply detectMood_stay. cbn [silence energy]. apply ltb_Fin_true. lra.
Qed.

End SilentFrameTheorems.

(* ================================================================== *)
(** ** Spectral flatness *)
(* ================================================================== *)

Section FlatnessTheorems.

Local Open Scope R_scope.

Lemma ln_le_minus_1 (x : R) : 0 < x -> ln x <= x - 1.
Proof.
  intros Hx. pose proof (exp_ineq1_le (ln x)) as H.
  rewrite exp_ln in H by assumption. lra.
Qed.

Lemma ln_quotient (x y : R) : 0 < x -> 0 < y -> ln (x / y) = ln x - ln y.
Proof.
  intros Hx Hy. unfold Rdiv.
  rewrite ln_mult by (try assumption; now apply Rinv_0_lt_compat).
  rewrite ln_Rinv by assumption. lra.
Qed.

(** The tangent bound summed over a list: the heart of the inequality
    between the geometric and the arithmetic mean. *)
Lemma Rsum_ln_bound (M : R) (l : list R) :
  0 < M -> Forall (fun x => 0 < x) l ->
  Rsum (map ln l) <= INR (length l) * ln M + Rsum l / M - INR (length l).
Proof.
  intros HM Hall. induction Hall as [| x l Hx Hall IH].
  - cbn. lra.
  - cbn [map Rsum fold_right length]. fold (Rsum (map ln l)). fold (Rsum l).
    rewrite S_INR.
    assert (Hq : ln (x / M) <= x / M - 1).
    { apply ln_le_minus_1. now apply Rdiv_lt_0_compat. }
    rewrite ln_quotient in Hq by assumption.
    replace ((x + Rsum l) / M) with (x / M + Rsum l / M) by (field; lra).
    lra.
Qed.

Lemma Rsum_pos (l : list R) :
  l <> [] -> Forall (fun x => 0 < x) l -> 0 < Rsum l.
Proof.
  intros Hne Hall. induction Hall as [| x l Hx Hall IH]; [congruence |].
  cbn [Rsum fold_right]. fold (Rsum l).
  destruct l as [| y l']; [cbn; lra |].
  assert (0 < Rsum (y :: l')) by (apply IH; discriminate). lra.
Qed.

Lemma mean_pos (l : list R) :
  l <> [] -> Forall (fun x => 0 < x) l -> 0 < mean l.
Proof.
  intros Hne Hall. unfold mean. apply Rdiv_lt_0_compat.
  - now apply Rsum_pos.
  - apply INR_pos. destruct l; [congruence | cbn; lia].
Qed.

(** Geometric mean <= arithmetic mean, for positive reals. *)
Lemma geometric_le_arithmetic (l : list R) :
  l <> [] -> Forall (fun x => 0 < x) l -> geometric_mean l <= mean l.
Proof.
  intros Hne Hall.
  pose proof (mean_pos l Hne Hall) as HM.
  assert (Hn : 0 < INR (length l)).
  { apply INR_pos. destruct l; [congruence | cbn; lia]. }
  pose proof (Rsum_ln_bound (mean l) l HM Hall) as Hb.
  replace (Rsum l / mean l) with (INR (length l)) in Hb.
  2:{ unfold mean in *. field. split; [lra |].
      apply Rgt_not_eq. apply Rsum_pos; assumption. }
  unfold geometric_mean.
  rewrite <- (exp_ln (mean l)) by assumption.
  destruct (Rle_lt_or_eq_dec (mean (map ln l)) (ln (mean l))) as [Hlt | Heq].
  - unfold mean at 1. rewrite length_map.
    apply (Rmult_le_reg_r (INR (length l))); [assumption |].
    unfold Rdiv. rewrite Rmult_assoc, Rinv_l by lra. lra.
  - left. now apply exp_increasing.
  - right. now rewrite Heq.
Qed.

Lemma qualifying_positive (data : frame) :
  Forall (fun x => 0 < x) (qualifying data).
Proof.
  unfold qualifying. apply Forall_forall. intros x Hx.
  apply filter_In in Hx. destruct Hx as [_ Hx].
  unfold above_floor in Hx. destruct (Rlt_dec 0.01 x); [lra | discriminate].
Qed.

Lemma qualifying_cons (d : byte) (rest : frame) :
  qualifying (d :: rest)
  = if above_floor (INR (to_nat d) / 255)
    then INR (to_nat d) / 255 :: qualifying rest
    else qualifying rest.
Proof. reflexivity. Qed.

(** What the loop accumulates: the sum of the logarithms and the sum of the
    qualifying values, and their number. *)
Lemma flatnessLoop_sums (data : frame) :
  forall (g a : R) (c : nat),
    flatnessLoop data (Fin g) (Fin a) c
    = (Fin (g + Rsum (map ln (qualifying data))),
       Fin (a + Rsum (qualifying data)),
       (c + length (qualifying data))%nat).
Proof.
  induction data as [| d rest IH]; intros g a c.
  - cbn. rewrite !Rplus_0_r, Nat.add_0_r. reflexivity.
  - cbn [flatnessLoop]. unfold of_nat. rewrite div_Fin by lra.
    replace (INR 255) with 255 by (cbn; lra).
    rewrite qualifying_cons. unfold gtb, ltb, above_floor.
    destruct (Rlt_dec 0.01 (INR (to_nat d) / 255)) as [Hq | Hq].
    + rewrite Math_log_Fin by lra. cbn [add]. rewrite IH.
      cbn [map Rsum fold_right length]. fold (Rsum (map ln (qualifying rest))).
      fold (Rsum (qualifying rest)).
      f_equal; [f_equal |]; [apply Fin_eq; lra | apply Fin_eq; lra | lia].
    + apply IH.
Qed.

Lemma computeSpectralFlatness_empty (data : frame) :
  qualifying data = [] -> computeSpectralFlatness data = Fin 0.
Proof.
  intros Hq. unfold computeSpectralFlatness.
  rewrite flatnessLoop_sums, Hq. cbn [length Nat.add Nat.ltb Nat.leb].
  unfold gtb. now rewrite ltb_Fin_false by lra.
Qed.

Lemma computeSpectralFlatness_ratio (data : frame) :
  qualifying data <> [] ->
  computeSpectralFlatness data
  = Fin (geometric_mean (qualifying data) / mean (qualifying data)).
Proof.
  intros Hq. unfold computeSpectralFlatness. rewrite flatnessLoop_sums.
  cbn [Nat.add].
  pose proof (mean_pos _ Hq (qualifying_positive data)) as HM.
  assert (Hlen : (0 < length (qualifying data))%nat).
  { destruct (qualifying data); [congruence | cbn; lia]. }
  assert (Hn : 0 < INR (length (qualifying data))) by now apply INR_pos.
  apply Nat.ltb_lt in Hlen. rewrite Hlen.
  unfold of_nat. rewrite !div_Fin by lra. cbn [Math_exp].
  rewrite !Rplus_0_l. fold (mean (qualifying data)).
  unfold gtb. rewrite ltb_Fin_true by assumption.
  rewrite div_Fin by lra. apply Fin_eq.
  unfold geometric_mean, mean at 2. now rewrite length_map.
Qed.

Lemma Rsum_repeat (v : R) (n : nat) : Rsum (repeat v n) = INR n * v.
Proof.
  induction n as [| n IH].
  - cbn. lra.
  - cbn [repeat Rsum fold_right]. fold (Rsum (repeat v n)).
    rewrite IH, S_INR. lra.
Qed.

Lemma mean_repeat (v : R) (n : nat) : (0 < n)%nat -> mean (repeat v n) = v.
Proof.
  intros Hn. unfold mean. rewrite Rsum_repeat, repeat_length.
  assert (0 < INR n) by now apply INR_pos. field. lra.
Qed.

Lemma qualifying_repeat (d : byte) (n : nat) :
  0.01 < INR (to_nat d) / 255 ->
  qualifying (repeat d n) = repeat (INR (to_nat d) / 255) n.
Proof.
  intros Hd. induction n as [| n IH]; [reflexivity |].
  cbn [repeat]. rewrite qualifying_cons, IH. unfold above_floor.
  destruct (Rlt_dec 0.01 (INR (to_nat d) / 255)); [reflexivity | contradiction].
Qed.

(** The bound 1 is attained: a frame whose bins all hold the same magnitude
    (above the floor) has flatness 1. *)
Example flatness_constant_frame (d : byte) (n : nat) :
  (0 < n)%nat -> 0.01 < INR (to_nat d) / 255 ->
  computeSpectralFlatness (repeat d n) = Fin 1.
Proof.
  intros Hn Hd.
  assert (Hq : qualifying (repeat d n) <> []).
  { rewrite qualifying_repeat by assumption. destruct n; [lia | discriminate]. }
  rewrite computeSpectralFlatness_ratio by assumption.
  rewrite qualifying_repeat by assumption.
  unfold geometric_mean. rewrite map_repeat, !mean_repeat by assumption.
  rewrite exp_ln by lra. apply Fin_eq. field. lra.
Qed.

(** The bins that qualify are those of magnitude 3 or more, for the exact
    test and for the test on doubles alike. *)
Lemma above_floor_magnitude (d : byte) :
  above_floor (INR (to_nat d) / 255) = (2 <? to_nat d)%nat.
Proof.
  unfold above_floor.
  destruct (Nat.ltb_spec 2 (to_nat d)) as [H | H];
    destruct (Rlt_dec 0.01 (INR (to_nat d) / 255)) as [Hr | Hr];
    try reflexivity; exfalso.
  - apply Hr. assert (H3 : (3 <= to_nat d)%nat) by lia.
    apply le_INR in H3. replace (INR 3) with 3 in H3 by (cbn; lra). lra.
  - apply le_INR in H. replace (INR 2) with 2 in H by (cbn; lra). lra.
Qed.

Lemma above_floor_binary64 (d : byte) :
  (0.01 <? Binary64.of_nat (to_nat d) / 255)%float = (2 <? to_nat d)%nat.
Proof. destruct d; vm_compute; reflexivity. Qed.

Lemma qualifying_none (data : frame) :
  qualifying data = [] ->
  Forall (fun d => (2 <? to_nat d)%nat = false) data.
Proof.
  induction data as [| d rest IH]; intros H; [constructor |].
  rewrite qualifying_cons, above_floor_magnitude in H.
  destruct (2 <? to_nat d)%nat eqn:E; [discriminate |].
  constructor; [exact E | now apply IH].
Qed.

(** On doubles: without a qualifying bin the loop leaves its accumulators
    as they are, and the flatness is 0, whatever the engine's logarithm and
    exponential. *)
Lemma flatnessLoop_binary64_none (Math_log : float -> float) (data : frame) :
  Forall (fun d => (2 <? to_nat d)%nat = false) data ->
  forall (g a : float) (n : nat),
    Binary64.flatnessLoop Math_log data g a n = (g, a, n).
Proof.
  intros Hall. induction Hall as [| d rest Hd Hall IH]; intros g a n.
  - reflexivity.
  - cbn [Binary64.flatnessLoop]. rewrite above_floor_binary64, Hd. apply IH.
Qed.

Lemma computeSpectralFlatness_binary64_none
  (Math_log Math_exp : float -> float) (data : frame) :
  qualifying data = [] ->
  Binary64.computeSpectralFlatness Math_log Math_exp data = 0%float.
Proof.
  intros Hq. unfold Binary64.computeSpectralFlatness.
  rewrite (flatnessLoop_binary64_none Math_log data (qualifying_none data Hq)).
  vm_compute. reflexivity.
Qed.

(** C10. In exact arithmetic the spectral flatness of every frame is a
    finite value in [0,1]: when no bin has a normalised value above 0.01 it
    is 0; otherwise it is the geometric mean of those values (exponential of
    the mean of their logarithms) divided by their arithmetic mean, and the
    geometric mean does not exceed the arithmetic mean.  On doubles the same
    bins qualify (those of magnitude 3 or more), and without a qualifying
    bin the computed flatness is 0 whatever the engine's [Math.log] and
    [Math.exp]; with qualifying bins the computed quotient carries the
    rounding of the logarithms, the exponential and the divisions, and is
    not bounded by 1. *)
Theorem spectralFlatness_bounds (s : AudioService) (data : frame)
  (nf : number) (Math_log Math_exp : float -> float) :
  (exists x : R,
      spectralFlatness (extractAudioFeatures s data nf) = Fin x /\
      0 <= x <= 1 /\
      ((qualifying data = [] /\ x = 0) \/
       (qualifying data <> [] /\
        x = geometric_mean (qualifying data) / mean (qualifying data) /\
        geometric_mean (qualifying data) <= mean (qualifying data))))
  /\ Forall (fun d =>
               (0.01 <? Binary64.of_nat (to_nat d) / 255)%float
               = above_floor (INR (to_nat d) / 255)) data
  /\ (qualifying data = [] ->
      Binary64.computeSpectralFlatness Math_log Math_exp data = 0%float).
Proof.
  split; [| split].
  - cbn [extractAudioFeatures spectralFlatness].
    destruct (qualifying data) as [| q qs] eqn:Hq.
    + exists 0. split; [now apply computeSpectralFlatness_empty |].
      split; [lra | now left].
    + assert (Hne : qualifying data <> []) by (rewrite Hq; discriminate).
      pose proof (mean_pos _ Hne (qualifying_positive data)) as HM.
      pose proof (geometric_le_arithmetic _ Hne (qualifying_positive data))
        as HG.
      rewrite <- Hq.
      exists (geometric_mean (qualifying data) / mean (qualifying data)).
      split; [now apply computeSpectralFlatness_ratio |].
      split.
      * split.
        -- apply Rlt_le, Rdiv_lt_0_compat; [apply exp_pos | assumption].
        -- apply (Rmult_le_reg_r (mean (qualifying data))); [assumption |].
           unfold Rdiv. rewrite Rmult_assoc, Rinv_l by lra. lra.
      * right. repeat split; assumption.
  - apply Forall_forall. intros d _.
    now rewrite above_floor_binary64, above_floor_magnitude.
  - apply computeSpectralFlatness_binary64_none.
Qed.

End FlatnessTheorems.

(* ================================================================== *)
(** ** Subscribing and unsubscribing *)
(* ================================================================== *)

Section SubscriptionTheorems.







End SubscriptionTheorems.

(* ================================================================== *)
(** ** Publishing, the analysis loop and [stop] *)
(* ================================================================== *)

Section LoopTheorems.

Variable throws : callback -> AudioAnalysisResult -> bool.
Variable audioSettings_fftSize : nat.
Variable moodDetection_defaultSensitivity : number.

Lemma detectMood_other_fields (s : AudioService) (f : AudioFeatures)
  (now : Z) :
  let s' := fst (detectMood s f now) in
  audioContext s' = audioContext s /\ analyzer s' = analyzer s /\
  stream s' = stream s /\ isInitialized s' = isInitialized s /\
  sensitivity s' = sensitivity s /\ listeners s' = listeners s /\
  moodChangeThreshold s' = moodChangeThreshold s.
Proof.
  cbn zeta. destruct (commits_dec s f now) as [c | n].
  - rewrite detectMood_commit by assumption. cbn. repeat split.
  - rewrite detectMood_retain by assumption. repeat split.
Qed.

Lemma frameService_listeners (s : AudioService) (data : frame) (now : Z) :
  listeners (frameService s data now) = listeners s.
Proof. apply detectMood_other_fields. Qed.

Lemma frameService_isInitialized (s : AudioService) (data : frame) (now : Z) :
  isInitialized (frameService s data now) = isInitialized s.
Proof. apply detectMood_other_fields. Qed.

Lemma frameService_analyzer (s : AudioService) (data : frame) (now : Z) :
  analyzer (frameService s data now) = analyzer s.
Proof. apply detectMood_other_fields. Qed.

(** On a silent frame the classification step leaves the service alone. *)
Lemma frameService_silent (s : AudioService) (n : nat) (g : R) (now : Z) :
  (0 < n)%nat -> sensitivity s = Fin g ->
  frameService s (repeat x00 n) now = s.
Proof.
  intros Hn Hs. unfold frameService, noiseFloor.
  rewrite (extractAudioFeatures_silent s n 0.03 g Hn) by (lra || assumption).
  rewrite detectMood_stay; [reflexivity |].
  cbn [silence energy]. apply ltb_Fin_true. lra.
Qed.

Lemma forEach_all_return (r : AudioAnalysisResult) (ls : list callback) :
  (forall l, In l ls -> throws l r = false) ->
  forEach_listener throws ls r = (delivered r ls, Normal).
Proof.
  induction ls as [| l ls IH]; intros Hall; [reflexivity |].
  cbn [forEach_listener]. rewrite (Hall l) by now left.
  rewrite IH by (intros l' Hl'; apply Hall; now right). reflexivity.
Qed.

Lemma forEach_first_throw (r : AudioAnalysisResult) (pre : list callback) :
  forall (cb : callback) (post : list callback),
    (forall l, In l pre -> throws l r = false) ->
    throws cb r = true ->
    forEach_listener throws (pre ++ cb :: post) r
    = (delivered r (pre ++ [cb]), Thrown).
Proof.
  induction pre as [| l pre IH]; intros cb post Hpre Hcb.
  - cbn [app forEach_listener]. now rewrite Hcb.
  - cbn [app forEach_listener]. rewrite (Hpre l) by now left.
    rewrite IH; [reflexivity | | assumption].
    intros l' Hl'. apply Hpre. now right.
Qed.

Lemma analyzeAudio_stopped (w : World) (data : frame) (now : Z) :
  isInitialized (service w) = false ->
  analyzeAudio throws w data now = (w, Normal).
Proof. intros H. unfold analyzeAudio. now rewrite H. Qed.

(** An activation in an initialised service. *)
Lemma analyzeAudio_active (w : World) (an : AnalyserNode) (data : frame)
  (now : Z) :
  isInitialized (service w) = true ->
  analyzer (service w) = Some an ->
  let s1 := frameService (service w) data now in
  let r := frameResult (service w) data now in
  let calls := fst (forEach_listener throws (listeners (service w)) r) in
  let c := snd (forEach_listener throws (listeners (service w)) r) in
  analyzeAudio throws w data now
  = ({| service := s1; pendingInitialize := pendingInitialize w;
        scheduledFrames :=
          match c with
          | Normal => S (scheduledFrames w)
          | Thrown => scheduledFrames w
          end;
        invocations := invocations w ++ calls |}, c).
Proof.
  intros Hinit Han. cbn zeta. unfold analyzeAudio. rewrite Hinit, Han.
  cbn [negb].
  pose proof (frameService_listeners (service w) data now) as HL.
  unfold frameResult, frameService in *.
  destruct (detectMood (service w)
              (extractAudioFeatures (service w) data noiseFloor) now)
    as [s1 moodResult].
  cbn [fst snd] in *. unfold notifyListeners. rewrite HL.
  destruct (forEach_listener throws (listeners (service w)) _) as [calls c].
  now destruct c.
Qed.

(** C4, as the code has it.  In an activation of the loop in an initialised
    service, the classifier state is updated before the fan-out and does not
    depend on what the callbacks do.  If no subscribed callback throws, each
    one receives the result, in subscription order, and the next activation
    is scheduled.  If a callback throws, the callbacks registered before it
    and that one have been invoked, those registered after it are not, and
    the activation does not schedule the next one. *)
Theorem publish_without_isolation (w : World) (an : AnalyserNode)
  (data : frame) (now : Z) :
  isInitialized (service w) = true ->
  analyzer (service w) = Some an ->
  let r := frameResult (service w) data now in
  let ls := listeners (service w) in
  let w' := fst (analyzeAudio throws w data now) in
  service w' = frameService (service w) data now
  /\ ((forall l, In l ls -> throws l r = false) ->
      invocations w' = invocations w ++ delivered r ls /\
      scheduledFrames w' = S (scheduledFrames w))
  /\ (forall pre cb post,
        ls = pre ++ cb :: post ->
        (forall l, In l pre -> throws l r = false) ->
        throws cb r = true ->
        invocations w' = invocations w ++ delivered r (pre ++ [cb]) /\
        scheduledFrames w' = scheduledFrames w).
Proof.
  intros Hinit Han. cbn zeta.
  rewrite (analyzeAudio_active w an data now Hinit Han). cbn [fst service].
  split; [reflexivity | split].
  - intros Hall. cbn [invocations scheduledFrames].
    now rewrite forEach_all_return by assumption.
  - intros pre cb post Hls Hpre Hcb. cbn [invocations scheduledFrames].
    rewrite Hls. now rewrite forEach_first_throw by assumption.
Qed.

Lemma stop_idempotent (s : AudioService) : stop (stop s) = stop s.
Proof.
  unfold stop. cbn [audioContext analyzer stream isInitialized sensitivity
    listeners currentMood moodChangeTime moodChangeThreshold].
  destruct (audioContext s), (stream s); reflexivity.
Qed.

Local Abbreviation step' := (step throws audioSettings_fftSize).
Local Abbreviation run' := (run throws audioSettings_fftSize).

(** While the service is not initialised, an event other than the resumption
    of [initialize()] keeps it so and invokes no callback. *)
Lemma step_stopped (w : World) (e : event) :
  isInitialized (service w) = false ->
  resumes_initialize e = false ->
  isInitialized (service (step' w e)) = false /\
  invocations (step' w e) = invocations w.
Proof.
  intros Hoff He. destruct e; cbn [step]; try discriminate He.
  - unfold initialize_call. rewrite Hoff. now split.
  - destruct (pendingInitialize w); now split.
  - destruct (scheduledFrames w) as [| n]; [now split |].
    rewrite analyzeAudio_stopped by exact Hoff. now split.
  - now split.
  - now split.
  - now split.
  - now split.
Qed.

Lemma run_stopped (events : list event) :
  forall w,
    isInitialized (service w) = false ->
    forallb (fun e => negb (resumes_initialize e)) events = true ->
    isInitialized (service (run' w events)) = false /\
    invocations (run' w events) = invocations w.
Proof.
  induction events as [| e rest IH]; intros w Hoff Hev.
  - now split.
  - cbn [forallb] in Hev. apply andb_true_iff in Hev. destruct Hev as [He Hrest].
    apply negb_true_iff in He.
    destruct (step_stopped w e Hoff He) as [Hoff' Hinv'].
    destruct (IH (step' w e) Hoff' Hrest) as [Hoff'' Hinv''].
    unfold run in *. cbn [fold_left]. split; [assumption | congruence].
Qed.

(** C9.  After a [stop()] called between two activations of the loop no
    callback is invoked, whatever happens next (calls of the public methods,
    animation frames, rejected microphone requests), for as long as no
    [initialize()] resumes with a granted microphone, be it a new call or
    one that was waiting when [stop()] was called: the service stays not
    initialised, and every activation of the analysis loop returns at its
    first test, before extracting features or notifying listeners, leaving
    the world as it is and scheduling nothing.  Calling [stop()] again
    changes nothing. *)
Theorem stop_halts_publishing (w : World) (events : list event) :
  forallb (fun e => negb (resumes_initialize e)) events = true ->
  let w0 := step' w CallStop in
  invocations w0 = invocations w
  /\ invocations (run' w0 events) = invocations w
  /\ isInitialized (service (run' w0 events)) = false
  /\ (forall data now,
        analyzeAudio throws (run' w0 events) data now
        = (run' w0 events, Normal))
  /\ stop (stop (service w)) = stop (service w)
  /\ step' w0 CallStop = w0.
Proof.
  intros Hev. cbn zeta.
  assert (Hoff : isInitialized (service (step' w CallStop)) = false)
    by reflexivity.
  destruct (run_stopped events _ Hoff Hev) as [Hoff' Hinv'].
  split; [reflexivity |].
  split; [exact Hinv' |].
  split; [exact Hoff' |].
  split; [intros data now; now apply analyzeAudio_stopped |].
  split; [apply stop_idempotent |].
  cbn [step setService service pendingInitialize scheduledFrames invocations].
  now rewrite stop_idempotent.
Qed.

End LoopTheorems.

(* ================================================================== *)
(** ** Scenarios *)
(* ================================================================== *)

Section Scenarios.

(** An activation on a silent frame, in an initialised service whose
    sensitivity is finite: the service is unchanged, and the callbacks are
    invoked up to the first one that throws, if any. *)
Lemma analyzeAudio_silent (throws : callback -> AudioAnalysisResult -> bool)
  (w : World) (an : AnalyserNode) (g : R) (n : nat) (now : Z) :
  isInitialized (service w) = true ->
  analyzer (service w) = Some an ->
  sensitivity (service w) = Fin g ->
  (0 < n)%nat ->
  let r := frameResult (service w) (repeat x00 n) now in
  let calls := fst (forEach_listener throws (listeners (service w)) r) in
  let c := snd (forEach_listener throws (listeners (service w)) r) in
  fst (analyzeAudio throws w (repeat x00 n) now)
  = {| service := service w; pendingInitialize := pendingInitialize w;
       scheduledFrames :=
         match c with
         | Normal => S (scheduledFrames w)
         | Thrown => scheduledFrames w
         end;
       invocations := invocations w ++ calls |}.
Proof.
  intros Hinit Han Hs Hn. cbn zeta.
  rewrite (analyzeAudio_active throws w an _ now Hinit Han). cbn [fst].
  now rewrite (frameService_silent (service w) n g now Hn Hs).
Qed.

Lemma run_cons (throws : callback -> AudioAnalysisResult -> bool)
  (fft : nat) (w : World) (e : event) (events : list event) :
  run throws fft w (e :: events) = run throws fft (step throws fft w e) events.
Proof. reflexivity. Qed.

(** [initialize()] resumed on a silent frame. *)
Lemma initialize_granted_silent
  (throws : callback -> AudioAnalysisResult -> bool) (fft : nat) (w : World)
  (rate : number) (g : R) (n : nat) (now : Z) :
  sensitivity (service w) = Fin g ->
  (0 < n)%nat ->
  let s1 :=
    {| audioContext := Some {| sampleRate := rate; closed := false |};
       analyzer := Some {| fftSize := fft |};
       stream := Some {| tracksStopped := false |};
       isInitialized := true;
       sensitivity := sensitivity (service w);
       listeners := listeners (service w);
       currentMood := currentMood (service w);
       moodChangeTime := moodChangeTime (service w);
       moodChangeThreshold := moodChangeThreshold (service w) |} in
  let r := frameResult s1 (repeat x00 n) now in
  let calls := fst (forEach_listener throws (listeners (service w)) r) in
  let c := snd (forEach_listener throws (listeners (service w)) r) in
  initialize_granted throws fft w rate (repeat x00 n) now
  = {| service := s1; pendingInitialize := Nat.pred (pendingInitialize w);
       scheduledFrames :=
         match c with
         | Normal => S (scheduledFrames w)
         | Thrown => scheduledFrames w
         end;
       invocations := invocations w ++ calls |}.
Proof.
  intros Hs Hn. cbn zeta. unfold initialize_granted, startAnalysisLoop.
  cbn [service analyzer audioContext].
  match goal with
  | |- fst (analyzeAudio _ ?W _ _) = _ =>
      exact (analyzeAudio_silent throws W {| fftSize := fft |} g n now
               eq_refl eq_refl Hs Hn)
  end.
Qed.

(** C4, the claim as stated fails.  Two subscribers, of which the first
    throws: when a frame is published the second is never invoked, no
    further activation of the loop is scheduled, and later animation frames
    deliver nothing to anybody. *)
Lemma throwing_subscriber_counterexample :
  let w :=
    run first_throws 256 (newWorld (Fin 0.8))
      [CallInitialize; MicrophoneGranted (Fin 44100) [x00; x00] 1000;
       CallSubscribe 1; CallSubscribe 2; AnimationFrame [x00; x00] 1016] in
  listeners (service w) = [1; 2]
  /\ map fst (invocations w) = [1]
  /\ scheduledFrames w = 0
  /\ run first_throws 256 w
       [AnimationFrame [x00; x00] 1032; AnimationFrame [x00; x00] 1048] = w.
Proof.
  cbn zeta. change [x00; x00] with (repeat x00 2).
  rewrite !run_cons.
  change (step first_throws 256 (newWorld (Fin 0.8)) CallInitialize)
    with {| service := newService (Fin 0.8); pendingInitialize := 1;
            scheduledFrames := 0; invocations := [] |}.
  cbn [step pendingInitialize].
  match goal with
  | |- context [initialize_granted _ _ ?W _ _ _] =>
      rewrite (initialize_granted_silent first_throws 256 W (Fin 44100) 0.8 2
                 1000 eq_refl (Nat.lt_0_succ 1))
  end.
  cbn [service newService listeners forEach_listener fst snd app
       pendingInitialize scheduledFrames invocations Nat.pred setService
       subscribe setListeners audioContext analyzer stream isInitialized
       sensitivity currentMood moodChangeTime moodChangeThreshold].
  match goal with
  | |- context [analyzeAudio _ ?W _ _] =>
      rewrite (analyzeAudio_silent first_throws W {| fftSize := 256 |} 0.8 2
                 1016 eq_refl eq_refl eq_refl (Nat.lt_0_succ 1))
  end.
  cbn [service listeners forEach_listener first_throws Nat.eqb fst snd app
       pendingInitialize scheduledFrames invocations run fold_left step map].
  repeat split.
Qed.

Ltac resume_initialize throws g now :=
  match goal with
  | |- context [initialize_granted _ _ ?W _ _ _] =>
      rewrite (initialize_granted_silent throws 256 W (Fin 44100) g 2 now
                 eq_refl (Nat.lt_0_succ 1))
  end.

Ltac activate throws g now :=
  match goal with
  | |- context [analyzeAudio _ ?W _ _] =>
      rewrite (analyzeAudio_silent throws W {| fftSize := 256 |} g 2 now
                 eq_refl eq_refl eq_refl (Nat.lt_0_succ 1))
  end.

Ltac simplify_world :=
  cbn [service newWorld newService listeners forEach_listener never_throws
       first_throws Nat.eqb fst snd app pendingInitialize scheduledFrames
       invocations Nat.pred setService subscribe unsubscribe setListeners stop
       option_map initialize_call initialize_denied audioContext analyzer
       stream isInitialized sensitivity currentMood moodChangeTime
       moodChangeThreshold run fold_left step map sampleRate].

(** What ends the silence after [stop()] is a resumed [initialize()], and
    nothing else.  First scenario: [stop()] is called while an
    [initialize()] is waiting for the microphone; when the microphone is
    granted afterwards the service becomes initialised, the loop starts and
    the subscriber is invoked, frame after frame.  Second scenario: a
    running service is stopped and initialised again; the subscriber is
    invoked again. *)
Lemma initialize_after_stop_publishes :
  let stopped :=
    run never_throws 256 (newWorld (Fin 0.8))
      [CallSubscribe 1; CallInitialize; CallStop] in
  let later :=
    run never_throws 256 stopped
      [MicrophoneGranted (Fin 44100) [x00; x00] 1000;
       AnimationFrame [x00; x00] 1016] in
  let stopped2 :=
    run never_throws 256 (newWorld (Fin 0.8))
      [CallSubscribe 1; CallInitialize;
       MicrophoneGranted (Fin 44100) [x00; x00] 1000; CallStop] in
  let restarted :=
    run never_throws 256 stopped2
      [CallInitialize; MicrophoneGranted (Fin 44100) [x00; x00] 2000] in
  (isInitialized (service stopped) = false /\
   invocations stopped = [] /\
   isInitialized (service later) = true /\
   map fst (invocations later) = [1; 1])
  /\ (isInitialized (service stopped2) = false /\
      map fst (invocations stopped2) = [1] /\
      map fst (invocations restarted) = [1; 1]).
Proof.
  cbn zeta. change [x00; x00] with (repeat x00 2). split.
  - simplify_world. resume_initialize never_throws 0.8%R 1000%Z.
    simplify_world. activate never_throws 0.8%R 1016%Z.
    simplify_world. repeat split.
  - simplify_world. resume_initialize never_throws 0.8%R 1000%Z.
    simplify_world. resume_initialize never_throws 0.8%R 2000%Z.
    simplify_world. repeat split.
Qed.

(** C9, the claim as stated fails.  [stop()] is called while an
    [initialize()] is still waiting for the microphone, and completes: the
    service is not initialised and nothing has been published.  When the
    microphone is granted afterwards, the waiting [initialize()] goes on,
    sets the service initialised and starts the loop: the subscriber
    receives a result at once and another at the next animation frame. *)
Lemma stop_during_initialize_counterexample :
  let stopped :=
    run never_throws 256 (newWorld (Fin 0.8))
      [CallSubscribe 1; CallInitialize; CallStop] in
  let later :=
    run never_throws 256 stopped
      [MicrophoneGranted (Fin 44100) [x00; x00] 1000;
       AnimationFrame [x00; x00] 1016] in
  isInitialized (service stopped) = false
  /\ invocations stopped = []
  /\ isInitialized (service later) = true
  /\ map fst (invocations later) = [1; 1].
Proof. exact (proj1 initialize_after_stop_publishes). Qed.

(** The classifier on concrete feature sets. *)
Example detectedMood_loud (s : AudioService) :
  detectedMood s loud_features = energetic.
Proof.
  unfold detectedMood, loud_features, gtb. cbn [energy zcr].
  rewrite ltb_Fin_false by lra. now rewrite !ltb_Fin_true by lra.
Qed.

Example detectedMood_quiet (s : AudioService) :
  detectedMood s quiet_features = calm.
Proof.
  unfold detectedMood, quiet_features, gtb.
  cbn [energy zcr spectralCentroid spectralFlatness].
  now rewrite !ltb_Fin_false by lra.
Qed.

Example detectedMood_NaN (s : AudioService) :
  detectedMood s
    {| energy := NaN; zcr := NaN; spectralCentroid := NaN;
       spectralFlatness := NaN; spectralRolloff := NaN; rms := NaN |}
  = calm.
Proof. reflexivity. Qed.

(** A change at time 1000 is committed (the last transition was at 0); a
    change back 50 ms later is not. *)
Example debounce_example :
  let s1 := fst (detectMood (sample_service 0.8 []) loud_features 1000) in
  let s2 := fst (detectMood s1 quiet_features 1050) in
  currentMood s1 = energetic /\ moodChangeTime s1 = 1000%Z /\ s2 = s1.
Proof.
  cbn zeta.
  assert (H1 : fst (detectMood (sample_service 0.8 []) loud_features 1000)
               = commitMood (sample_service 0.8 []) energetic 1000).
  { rewrite detectMood_commit.
    - now rewrite detectedMood_loud.
    - unfold commits. rewrite detectedMood_loud.
      split; [discriminate | cbn; lia]. }
  rewrite H1. repeat split.
  apply detectMood_retain. intros [_ Hgt]. cbn in Hgt. lia.
Qed.

(** The threshold is counted from the last committed transition, not from
    the last candidate change: with the last transition at 0, a change at
    time 50 is held back and the same change at time 120 is committed. *)
Example debounce_from_last_commit :
  let s0 := sample_service 0.8 [] in
  let s1 := fst (detectMood s0 loud_features 50) in
  let s2 := fst (detectMood s1 loud_features 120) in
  s1 = s0 /\ s2 = commitMood s0 energetic 120.
Proof.
  cbn zeta.
  assert (H1 : fst (detectMood (sample_service 0.8 []) loud_features 50)
               = sample_service 0.8 []).
  { apply detectMood_retain. intros [_ Hgt]. cbn in Hgt. lia. }
  rewrite H1. split; [reflexivity |].
  rewrite detectMood_commit.
  - now rewrite detectedMood_loud.
  - unfold commits. rewrite detectedMood_loud.
    split; [discriminate | cbn; lia].
Qed.

Example dominantLoop_example :
  dominantLoop [x03; x09; x09; x01] 0 0 0 = 1.
Proof. reflexivity. Qed.

Example zcr_count_example :
  zcrLoop [xff; x00; xff] (signOf x00) 0 = 3.
Proof. reflexivity. Qed.

(** On binary64 floats.  The frame of 128 bins whose first half is 255, with
    sensitivity 1 and noise floor 0.03, has the double nearest to 0.94 as its
    energy and 54/128 as its rolloff.  A silent frame of 128 bins has six
    features equal to 0, whatever the engine's logarithm and exponential,
    for either noise floor of the two revisions. *)
Example energy_half_frame_binary64 :
  Binary64.computeEnergy 1%float (half_frame 64) 0.03%float = 0.94%float.
Proof. vm_compute. reflexivity. Qed.

Example rolloff_half_frame_binary64 :
  Binary64.computeSpectralRolloff (half_frame 64) = 0.421875%float.
Proof. vm_compute. reflexivity. Qed.

Example silent_frame_binary64 (Math_log Math_exp : float -> float) :
  Binary64.extractAudioFeatures Math_log Math_exp 0.8%float (repeat x00 128)
    0.03%float
  = Binary64.mkFeatures 0 0 0 0 0 0
  /\ Binary64.extractAudioFeatures Math_log Math_exp 0.8%float
       (repeat x00 128) 0.05%float
     = Binary64.mkFeatures 0 0 0 0 0 0.
Proof. split; vm_compute; reflexivity. Qed.

(** The real number behind a finite double. *)
Lemma to_R_finite (x : float) (sign : bool) (m : positive) (e : Z) :
  Prim2SF x = S754_finite sign m e ->
  Binary64.to_R x
  = ((if sign then -1 else 1) * IZR (Z.pos m) * powerRZ 2 e)%R.
Proof. intros H. unfold Binary64.to_R. now rewrite H. Qed.



(** C10, the claim as stated fails.  On the frame of the single bin 7 the
    exact flatness is 1, and the code computes 1.0000000000000002: the
    exponential of the logarithm of the double 7/255 is the next double
    above it.  On 128 bins of 3 the exact flatness is 1 as well and the code
    computes 1.0000000000000082.  Both computed values are real numbers
    above 1. *)
Lemma flatness_above_one_counterexample :
  computeSpectralFlatness [x07] = Fin 1
  /\ Binary64.computeSpectralFlatness Binary64.Math_log_sample
       Binary64.Math_exp_sample [x07]
     = 1.0000000000000002%float
  /\ (1 < Binary64.to_R
            (Binary64.computeSpectralFlatness Binary64.Math_log_sample
               Binary64.Math_exp_sample [x07]))%R
  /\ computeSpectralFlatness (repeat x03 128) = Fin 1
  /\ Binary64.computeSpectralFlatness Binary64.Math_log_sample
       Binary64.Math_exp_sample (repeat x03 128)
     = 1.0000000000000082%float
  /\ (1 < Binary64.to_R
            (Binary64.computeSpectralFlatness Binary64.Math_log_sample
               Binary64.Math_exp_sample (repeat x03 128)))%R.
Proof.
  assert (H7 : (0.01 < INR (to_nat x07) / 255)%R).
  { change (to_nat x07) with 7%nat. rewrite INR_IZR_INZ.
    change (Z.of_nat 7) with 7%Z. lra. }
  assert (H3 : (0.01 < INR (to_nat x03) / 255)%R).
  { change (to_nat x03) with 3%nat. rewrite INR_IZR_INZ.
    change (Z.of_nat 3) with 3%Z. lra. }
  rewrite (to_R_finite _ false 4503599627370497 (-52))
    by (vm_compute; reflexivity).
  rewrite (to_R_finite _ false 4503599627370533 (-52))
    by (vm_compute; reflexivity).
  change (powerRZ 2 (-52)) with (/ 2 ^ 52)%R.
  rewrite !pow_IZR.
  change (2 ^ Z.of_nat 52)%Z with 4503599627370496%Z.
  split; [exact (flatness_constant_frame x07 1 (Nat.lt_0_succ 0) H7) |].
  split; [vm_compute; reflexivity |].
  split; [lra |].
  split; [exact (flatness_constant_frame x03 128 (Nat.lt_0_succ 127) H3) |].
  split; [vm_compute; reflexivity | lra].
Qed.

Lemma detectMood_debounce_witness :
  (0 <= moodChangeThreshold (sample_service 0.8 []))%Z /\
  (moodChangeTime (sample_service 0.8 [])
   <= moodChangeTime
        (fst (detectMood (sample_service 0.8 []) loud_features 1000)))%Z.
Proof.
  assert (H : (0 <= moodChangeThreshold (sample_service 0.8 []))%Z)
    by (cbn; lia).
  split; [exact H |].
  exact (proj1 (proj2 (proj2 (proj2 (proj2 (proj2
           (detectMood_debounce (sample_service 0.8 []) loud_features 1000
              H))))))).
Defined.


Lemma dominantFrequency_formula_witness :
  exists k,
    lowest_peak [x03; x09; x09; x01] k /\ k <= 3 /\
    calculateDominantFrequency (sample_service 0.8 []) [x03; x09; x09; x01]
    = (of_nat k * Fin 44100 / of_nat (256 * 2))%js /\
    (truthy (Fin 44100) = true ->
     calculateDominantFrequency_fallback (sample_service 0.8 [])
       [x03; x09; x09; x01]
     = (of_nat k * Fin 44100 / of_nat (256 * 2))%js).
Proof.
  exact (proj2 (proj2
           (dominantFrequency_formula (sample_service 0.8 [])
              [x03; x09; x09; x01]))
           {| fftSize := 256 |}
           {| sampleRate := Fin 44100; closed := false |} eq_refl eq_refl).
Defined.

Lemma silent_frame_features_witness :
  (0 < 4)%nat /\ (0 <= 0.03)%R /\
  sensitivity (sample_service 0.8 []) = Fin 0.8 /\
  extractAudioFeatures (sample_service 0.8 []) [x00; x00; x00; x00]
    (Fin 0.03)
  = {| energy := Fin 0; rms := Fin 0; zcr := Fin 0;
       spectralCentroid := Fin 0; spectralFlatness := Fin 0;
       spectralRolloff := Fin 0 |} /\
  detectMood (sample_service 0.8 [])
    (extractAudioFeatures (sample_service 0.8 []) [x00; x00; x00; x00]
       (Fin 0.03)) 1000
  = (sample_service 0.8 [], (calm, Fin 1)).
Proof.
  assert (H1 : (0 < 4)%nat) by lia.
  assert (H2 : (0 <= 0.03)%R) by lra.
  split; [exact H1 |]. split; [exact H2 |]. split; [reflexivity |].
  exact (silent_frame_features (sample_service 0.8 []) 4 0.03 0.8 1000
           H1 H2 eq_refl).
Defined.

Lemma publish_without_isolation_witness :
  isInitialized (service (sample_world 0.8 [1; 2])) = true /\
  analyzer (service (sample_world 0.8 [1; 2])) = Some {| fftSize := 256 |} /\
  let w' :=
    fst (analyzeAudio first_throws (sample_world 0.8 [1; 2]) [x00; x00] 1016) in
  invocations w'
  = [(1, frameResult (sample_service 0.8 [1; 2]) [x00; x00] 1016)] /\
  scheduledFrames w' = 1.
Proof.
  split; [reflexivity |]. split; [reflexivity |].
  exact (proj2 (proj2
           (publish_without_isolation first_throws (sample_world 0.8 [1; 2])
              {| fftSize := 256 |} [x00; x00] 1016 eq_refl eq_refl))
           [] 1 [2] eq_refl (fun l (H : In l []) => False_ind _ H) eq_refl).
Defined.

Lemma stop_halts_publishing_witness :
  forallb (fun e => negb (resumes_initialize e))
    [AnimationFrame [x00; xff] 1016; CallInitialize; CallSubscribe 2;
     MicrophoneDenied; AnimationFrame [xff; xff] 1032] = true /\
  invocations
    (run never_throws 256
       (step never_throws 256 (sample_world 0.8 [1]) CallStop)
       [AnimationFrame [x00; xff] 1016; CallInitialize; CallSubscribe 2;
        MicrophoneDenied; AnimationFrame [xff; xff] 1032])
  = [].
Proof.
  split; [reflexivity |].
  exact (proj1 (proj2
           (stop_halts_publishing never_throws 256 (sample_world 0.8 [1])
              [AnimationFrame [x00; xff] 1016; CallInitialize;
               CallSubscribe 2; MicrophoneDenied;
               AnimationFrame [xff; xff] 1032]
              eq_refl))).
Defined.

End Scenarios.

(* ================================================================== *)
(** ** Sensitivity and the range of the energy *)
(* ================================================================== *)

Section SensitivityTheorems.

Local Open Scope R_scope.

Lemma number_NaN_dec (x : number) : {x = NaN} + {x <> NaN}.
Proof. destruct x; [now left | right .. ]; discriminate. Qed.

Lemma clamp_Fin (v : R) :
  Math_max (Fin 0) (Math_min (Fin 1) (Fin v)) = Fin (Rmax 0 (Rmin 1 v)).
Proof. now rewrite Math_min_Fin, Math_max_Fin. Qed.

Lemma clamp_range (v : R) : 0 <= Rmax 0 (Rmin 1 v) <= 1.
Proof.
  split.
  - apply Rmax_l.
  - apply Rmax_lub; [lra | apply Rmin_l].
Qed.

Lemma clamp_fixed (v : R) : 0 <= v <= 1 -> Rmax 0 (Rmin 1 v) = v.
Proof. intros [H0 H1]. rewrite Rmin_right by lra. now rewrite Rmax_right by lra. Qed.

Lemma clamp_PInf : Math_max (Fin 0) (Math_min (Fin 1) PInf) = Fin 1.
Proof.
  change (Math_min (Fin 1) PInf) with (Fin 1).
  rewrite Math_max_Fin. apply Fin_eq. apply Rmax_right. lra.
Qed.

Lemma clamp_NInf : Math_max (Fin 0) (Math_min (Fin 1) NInf) = Fin 0.
Proof. reflexivity. Qed.

Lemma clamp_NaN : Math_max (Fin 0) (Math_min (Fin 1) NaN) = NaN.
Proof. reflexivity. Qed.

(** The clamp of a number that is not [NaN]. *)
Lemma clamp_finite (value : number) :
  value <> NaN ->
  exists g, Math_max (Fin 0) (Math_min (Fin 1) value) = Fin g /\ 0 <= g <= 1 /\
            forall v, value = Fin v -> g = Rmax 0 (Rmin 1 v).
Proof.
  intros Hv. destruct value as [| | | v].
  - congruence.
  - exists 1. rewrite clamp_PInf. split; [reflexivity |].
    split; [lra | discriminate].
  - exists 0. rewrite clamp_NInf. split; [reflexivity |].
    split; [lra | discriminate].
  - exists (Rmax 0 (Rmin 1 v)). rewrite clamp_Fin.
    split; [reflexivity |]. split; [apply clamp_range |].
    intros v' Hv'. now injection Hv' as <-.
Qed.

Lemma clamp_idempotent (value : number) :
  Math_max (Fin 0)
    (Math_min (Fin 1) (Math_max (Fin 0) (Math_min (Fin 1) value)))
  = Math_max (Fin 0) (Math_min (Fin 1) value).
Proof.
  destruct value as [| | | v].
  - reflexivity.
  - rewrite clamp_PInf, clamp_Fin. apply Fin_eq, clamp_fixed. lra.
  - rewrite clamp_NInf, clamp_Fin. apply Fin_eq, clamp_fixed. lra.
  - rewrite !clamp_Fin. apply Fin_eq, clamp_fixed, clamp_range.
Qed.

(** X1. [setSensitivity] stores its argument clamped to [0,1]: a finite
    value v is stored as max(0, min(1, v)), so a value already in [0,1] is
    stored as it is, a value below 0 as 0 and a value above 1 as 1;
    [Infinity] is stored as 1, [-Infinity] as 0 and [NaN] as [NaN].  Every
    other field of the service (the audio context, the analyser, the stream,
    the initialised flag, the subscribers, the mood, the time of its last
    transition and the debounce threshold) keeps its value, and setting the
    stored value again changes nothing. *)
Theorem setSensitivity_clamps (s : AudioService) (value : number) :
  ((value = NaN /\ sensitivity (setSensitivity s value) = NaN)
   \/ (value <> NaN /\
       exists g, sensitivity (setSensitivity s value) = Fin g /\
                 0 <= g <= 1 /\
                 (forall v, value = Fin v -> g = Rmax 0 (Rmin 1 v)) /\
                 (forall v, value = Fin v -> 0 <= v <= 1 -> g = v)))
  /\ (value = PInf -> sensitivity (setSensitivity s value) = Fin 1)
  /\ (value = NInf -> sensitivity (setSensitivity s value) = Fin 0)
  /\ (forall v, value = Fin v ->
        (v <= 0 -> sensitivity (setSensitivity s value) = Fin 0) /\
        (1 <= v -> sensitivity (setSensitivity s value) = Fin 1))
  /\ audioContext (setSensitivity s value) = audioContext s
  /\ analyzer (setSensitivity s value) = analyzer s
  /\ stream (setSensitivity s value) = stream s
  /\ isInitialized (setSensitivity s value) = isInitialized s
  /\ listeners (setSensitivity s value) = listeners s
  /\ currentMood (setSensitivity s value) = currentMood s
  /\ moodChangeTime (setSensitivity s value) = moodChangeTime s
  /\ moodChangeThreshold (setSensitivity s value) = moodChangeThreshold s
  /\ setSensitivity (setSensitivity s value)
       (sensitivity (setSensitivity s value))
     = setSensitivity s value.
Proof.
  split.
  { cbn [setSensitivity sensitivity].
    destruct (number_NaN_dec value) as [-> | Hv].
    - left. now split.
    - right. split; [assumption |].
      destruct (clamp_finite value Hv) as [g [Hg [Hr Hf]]].
      exists g. split; [assumption |]. split; [assumption |].
      split; [assumption |].
      intros v Hval Hrange. rewrite (Hf v Hval). now apply clamp_fixed. }
  split.
  { intros ->. cbn [setSensitivity sensitivity]. apply clamp_PInf. }
  split.
  { intros ->. cbn [setSensitivity sensitivity]. apply clamp_NInf. }
  split.
  { intros v ->. cbn [setSensitivity sensitivity]. rewrite clamp_Fin.
    split; intros Hv; apply Fin_eq.
    - rewrite Rmin_right by lra. apply Rmax_left. lra.
    - rewrite Rmin_left by lra. apply Rmax_right. lra. }
  do 8 (split; [reflexivity |]).
  unfold setSensitivity. cbn [audioContext analyzer stream isInitialized
    sensitivity listeners currentMood moodChangeTime moodChangeThreshold].
  now rewrite clamp_idempotent.
Qed.

End SensitivityTheorems.

Section EnergyRangeTheorems.

Local Open Scope R_scope.

Lemma spec_energy_range (data : frame) (nf g : R) :
  0 <= g -> 0 <= spec_energy data nf g <= 1.
Proof.
  intros Hg. unfold spec_energy. split; [| apply Rmin_l].
  apply Rmin_glb; [lra |].
  pose proof (Rmax_l 0 (mean (normalized data) - nf)) as Hm.
  apply Rmult_le_pos; [| assumption]. lra.
Qed.

Lemma spec_energy_monotone (data : frame) (nf g1 g2 : R) :
  g1 <= g2 -> spec_energy data nf g1 <= spec_energy data nf g2.
Proof.
  intros Hg. unfold spec_energy.
  pose proof (Rmax_l 0 (mean (normalized data) - nf)) as Hm.
  apply Rle_min_compat_l.
  apply Rmult_le_compat_l; [lra | assumption].
Qed.

(** X2. For a non-empty frame and a finite noise floor, the energy computed
    with a finite non-negative sensitivity is a finite value in [0,1], and a
    larger sensitivity never gives a smaller energy. *)
Theorem energy_range_monotone (s1 s2 : AudioService) (data : frame)
  (nf g1 g2 : R) :
  data <> [] ->
  sensitivity s1 = Fin g1 -> sensitivity s2 = Fin g2 ->
  0 <= g1 <= g2 ->
  exists e1 e2,
    energy (extractAudioFeatures s1 data (Fin nf)) = Fin e1 /\
    energy (extractAudioFeatures s2 data (Fin nf)) = Fin e2 /\
    0 <= e1 /\ e1 <= e2 /\ e2 <= 1.
Proof.
  intros Hne H1 H2 [Hg1 Hg12].
  exists (spec_energy data nf g1), (spec_energy data nf g2).
  cbn [extractAudioFeatures energy]. rewrite H1, H2.
  rewrite !computeEnergy_spec by assumption.
  split; [reflexivity |]. split; [reflexivity |].
  split; [apply spec_energy_range; lra |].
  split; [now apply spec_energy_monotone |].
  apply spec_energy_range. lra.
Qed.

Lemma spec_energy_zero_gain (data : frame) (nf : R) : spec_energy data nf 0 = 0.
Proof.
  unfold spec_energy. rewrite Rmult_0_r. apply Rmin_right. lra.
Qed.

Lemma frameService_zero_gain (s : AudioService) (data : frame) (now : Z) :
  data <> [] -> sensitivity s = Fin 0 -> frameService s data now = s.
Proof.
  intros Hne Hs. unfold frameService. rewrite detectMood_stay; [reflexivity |].
  cbn [extractAudioFeatures energy]. rewrite Hs. unfold noiseFloor.
  rewrite computeEnergy_spec by assumption. rewrite spec_energy_zero_gain.
  apply ltb_Fin_true. lra.
Qed.

Lemma analyzeFrames_cons (s : AudioService) (data : frame) (now : Z)
  (rest : list (frame * Z)) :
  analyzeFrames s ((data, now) :: rest)
  = analyzeFrames (frameService s data now) rest.
Proof. reflexivity. Qed.

(** X3. With the sensitivity at 0 the energy of every non-empty frame is 0,
    so the classifier always takes its stay rule: over any run of frames the
    service (its mood and its transition timestamp included) stays as it is,
    and every result reports the current mood. *)
Theorem zero_sensitivity_freezes_mood (s : AudioService)
  (inputs : list (frame * Z)) :
  sensitivity s = Fin 0 ->
  Forall (fun input => fst input <> []) inputs ->
  analyzeFrames s inputs = s
  /\ Forall (fun input =>
               energy (features (frameResult s (fst input) (snd input)))
               = Fin 0 /\
               mood (frameResult s (fst input) (snd input)) = currentMood s)
       inputs.
Proof.
  intros Hs Hall. split.
  - induction Hall as [| [data now] rest Hne Hall IH]; [reflexivity |].
    rewrite analyzeFrames_cons.
    now rewrite (frameService_zero_gain s data now Hne Hs).
  - apply Forall_forall. intros [data now] Hin.
    rewrite Forall_forall in Hall. specialize (Hall _ Hin). cbn [fst snd] in *.
    unfold frameResult. cbn [features mood energy].
    pose proof (frameService_zero_gain s data now Hall Hs) as Hf.
    unfold frameService in Hf.
    split.
    + cbn [extractAudioFeatures energy]. rewrite Hs. unfold noiseFloor.
      rewrite computeEnergy_spec by assumption.
      now rewrite spec_energy_zero_gain.
    + unfold detectMood. cbn [snd fst]. unfold detectMood in Hf.
      cbn [fst] in Hf. now rewrite Hf.
Qed.

End EnergyRangeTheorems.

(* ================================================================== *)
(** ** Ranges of the other features *)
(* ================================================================== *)

Section FeatureRangeTheorems.

Local Open Scope R_scope.

Lemma normalized_unit (data : frame) :
  Forall (fun a => 0 <= a <= 1) (normalized data).
Proof.
  unfold normalized. apply Forall_forall. intros a Ha.
  apply in_map_iff in Ha. destruct Ha as [d [<- _]].
  pose proof (to_nat_bounded d) as Hb. apply le_INR in Hb.
  replace (INR 255) with 255 in Hb by (rewrite INR_IZR_INZ; reflexivity).
  pose proof (pos_INR (to_nat d)) as Hp.
  split.
  - apply Rmult_le_pos; [assumption | lra].
  - apply (Rmult_le_reg_r 255); [lra |].
    unfold Rdiv. rewrite Rmult_assoc, Rinv_l by lra. lra.
Qed.

Lemma Rsum_cons (a : R) (l : list R) : Rsum (a :: l) = a + Rsum l.
Proof. reflexivity. Qed.

Lemma Rsum_unit_bounds (l : list R) :
  Forall (fun a => 0 <= a <= 1) l -> 0 <= Rsum l <= INR (length l).
Proof.
  intros Hall. induction Hall as [| a l Ha Hall IH].
  - cbn. lra.
  - rewrite Rsum_cons. cbn [length]. rewrite S_INR. lra.
Qed.

Lemma squares_unit (l : list R) :
  Forall (fun a => 0 <= a <= 1) l -> Forall (fun a => 0 <= a <= 1) (squares l).
Proof.
  intros Hall. induction Hall as [| a l Ha Hall IH]; [constructor |].
  cbn [squares map]. constructor; [| exact IH]. nra.
Qed.

Lemma normalized_cons (d : byte) (rest : frame) :
  normalized (d :: rest) = INR (to_nat d) / 255 :: normalized rest.
Proof. reflexivity. Qed.

Lemma amplitude_Fin (d : byte) :
  (of_nat (to_nat d) / Fin 255)%js = Fin (INR (to_nat d) / 255).
Proof. unfold of_nat. apply div_Fin. lra. Qed.

Lemma rmsLoop_sum (data : frame) :
  forall a, rmsLoop data (Fin a)
            = Fin (a + Rsum (squares (normalized data))).
Proof.
  induction data as [| d rest IH]; intros a.
  - cbn. apply Fin_eq. lra.
  - cbn [rmsLoop]. rewrite amplitude_Fin. unfold pow2. cbn [mul add].
    rewrite IH. rewrite normalized_cons. cbn [squares map].
    fold (squares (normalized rest)). rewrite Rsum_cons. apply Fin_eq. lra.
Qed.

Lemma mean_unit (l : list R) :
  l <> [] -> Forall (fun a => 0 <= a <= 1) l -> 0 <= mean l <= 1.
Proof.
  intros Hne Hall. destruct (Rsum_unit_bounds l Hall) as [H0 H1].
  assert (Hn : 0 < INR (length l)).
  { apply INR_pos. destruct l; [congruence | cbn; lia]. }
  unfold mean. split.
  - apply Rmult_le_pos; [assumption |]. apply Rlt_le, Rinv_0_lt_compat, Hn.
  - apply (Rmult_le_reg_r (INR (length l))); [assumption |].
    unfold Rdiv. rewrite Rmult_assoc, Rinv_l by lra. lra.
Qed.

Lemma computeRms_range (data : frame) :
  data <> [] ->
  exists x,
    computeRms data = Fin x /\
    x = sqrt (mean (squares (normalized data))) /\
    0 <= x <= 1.
Proof.
  intros Hne. exists (sqrt (mean (squares (normalized data)))).
  assert (Hsq : squares (normalized data) <> []).
  { destruct data; [congruence | discriminate]. }
  pose proof (mean_unit _ Hsq (squares_unit _ (normalized_unit data))) as Hm.
  assert (Hn : 0 < INR (length data)).
  { apply INR_pos. destruct data; [congruence | cbn; lia]. }
  split; [| split; [reflexivity |]].
  - unfold computeRms.
    rewrite rmsLoop_sum. unfold of_nat. rewrite div_Fin by lra.
    rewrite Rplus_0_l.
    replace (Rsum (squares (normalized data)) / INR (length data))
      with (mean (squares (normalized data))).
    + apply Math_sqrt_Fin. apply Hm.
    + unfold mean, squares, normalized. now rewrite !length_map.
  - split; [apply sqrt_pos |].
    rewrite <- sqrt_1. apply sqrt_le_1_alt. apply Hm.
Qed.

(** X4. For a non-empty frame the rms feature is the square root of the mean
    of the squared normalised magnitudes, a finite value in [0,1]; it takes
    no part of the sensitivity or the noise floor. *)
Theorem rms_formula_range (s : AudioService) (data : frame) (nf : number) :
  data <> [] ->
  exists x,
    rms (extractAudioFeatures s data nf) = Fin x /\
    x = sqrt (mean (squares (normalized data))) /\
    0 <= x <= 1.
Proof.
  intros Hne. cbn [extractAudioFeatures rms]. now apply computeRms_range.
Qed.

(** The counter of the sign scan grows by at most one per bin, and not at all
    while the bins stay on the side of [prevValue]. *)
Lemma zcrLoop_bound (data : frame) :
  forall (prevValue : bool) (zcr : nat),
  exists k,
    zcrLoop data prevValue zcr = (zcr + k)%nat /\ (k <= length data)%nat /\
    (Forall (fun d => signOf d = prevValue) data -> k = 0%nat).
Proof.
  induction data as [| d rest IH]; intros prevValue zcr.
  - exists 0%nat. cbn. split; [lia | split; [lia | reflexivity]].
  - cbn [zcrLoop].
    destruct (Bool.eqb prevValue (signOf d)) eqn:E.
    + destruct (IH (signOf d) zcr) as [k [Hk [Hle Hsame]]].
      exists k. split; [assumption |]. split; [cbn; lia |].
      intros Hall. pose proof (Forall_inv Hall) as Hd.
      pose proof (Forall_inv_tail Hall) as Hrest. cbn beta in Hd.
      apply Hsame. now rewrite Hd.
    + destruct (IH (signOf d) (S zcr)) as [k [Hk [Hle Hsame]]].
      exists (S k). split; [rewrite Hk; lia |]. split; [cbn; lia |].
      intros Hall. pose proof (Forall_inv Hall) as Hd. cbn beta in Hd.
      rewrite Hd, Bool.eqb_reflx in E. discriminate.
Qed.

(** The scan counts the sign changes of the frame that starts with a bin
    on the side [prevValue]. *)
Lemma zcrLoop_sign_changes (rest : frame) :
  forall (d : byte) (zcr : nat),
    zcrLoop rest (signOf d) zcr = (zcr + sign_changes (d :: rest))%nat.
Proof.
  induction rest as [| r rest IH]; intros d zcr.
  - cbn. lia.
  - cbn [zcrLoop]. rewrite IH.
    unfold sign_changes. cbn [tl combine filter fst snd].
    fold (signOf d). fold (signOf r).
    change (above_midpoint d) with (signOf d).
    change (above_midpoint r) with (signOf r).
    destruct (signOf d), (signOf r); cbn [Bool.eqb xorb length]; lia.
Qed.

Lemma sign_changes_bound (data : frame) :
  (sign_changes data <= Nat.pred (length data))%nat.
Proof.
  unfold sign_changes.
  eapply Nat.le_trans; [apply filter_length_le |].
  rewrite length_combine. destruct data as [| d rest]; cbn [tl length]; lia.
Qed.

Lemma sign_changes_one_side (data : frame) (side : bool) :
  Forall (fun d => signOf d = side) data -> sign_changes data = 0%nat.
Proof.
  intros Hall. destruct data as [| d rest]; [reflexivity |].
  pose proof (Forall_inv Hall) as Hd. cbn beta in Hd.
  pose proof (Forall_inv_tail Hall) as Hrest.
  destruct (zcrLoop_bound rest (signOf d) 0) as [k [Hk [_ Hsame]]].
  rewrite zcrLoop_sign_changes in Hk. cbn [Nat.add] in Hk.
  rewrite Hk. apply Hsame. now rewrite Hd.
Qed.

Lemma computeZcr_range (data : frame) :
  data <> [] ->
  computeZcr data = Fin (INR (sign_changes data) / INR (length data)) /\
  (sign_changes data < length data)%nat /\
  0 <= INR (sign_changes data) / INR (length data) < 1 /\
  (forall side,
      Forall (fun d => signOf d = side) data -> sign_changes data = 0%nat).
Proof.
  intros Hne. destruct data as [| d rest]; [congruence |].
  pose proof (sign_changes_bound (d :: rest)) as Hle.
  assert (Hn : 0 < INR (length (d :: rest))) by (apply INR_pos; cbn; lia).
  assert (Hlt : (sign_changes (d :: rest) < length (d :: rest))%nat)
    by (cbn [length Nat.pred] in *; lia).
  split.
  { unfold computeZcr. cbn [tl]. rewrite zcrLoop_sign_changes.
    cbn [Nat.add]. unfold of_nat. apply div_Fin. lra. }
  split; [assumption |].
  split.
  - split.
    + apply Rmult_le_pos; [apply pos_INR |].
      apply Rlt_le, Rinv_0_lt_compat, Hn.
    + apply (Rmult_lt_reg_r (INR (length (d :: rest)))); [assumption |].
      unfold Rdiv. rewrite Rmult_assoc, Rinv_l by lra.
      apply lt_INR in Hlt. lra.
  - intros side. apply sign_changes_one_side.
Qed.

(** X5. For a non-empty frame of N bins the zcr feature is c / N, where c is
    the number of sign changes of the frame: the pairs of consecutive bins
    of which exactly one exceeds 128.  That number is at most N - 1, so the
    feature is a finite value in [0,1), and it is 0 when all bins are on the
    same side of 128. *)
Theorem zcr_range (s : AudioService) (data : frame) (nf : number) :
  data <> [] ->
  zcr (extractAudioFeatures s data nf)
  = Fin (INR (sign_changes data) / INR (length data)) /\
  (sign_changes data < length data)%nat /\
  0 <= INR (sign_changes data) / INR (length data) < 1 /\
  (forall side,
      Forall (fun d => signOf d = side) data -> sign_changes data = 0%nat).
Proof.
  intros Hne. cbn [extractAudioFeatures zcr]. now apply computeZcr_range.
Qed.

Lemma centroidLoop_sums (data : frame) :
  forall (i : nat) (n d : R),
    centroidLoop data i (Fin n) (Fin d)
    = (Fin (n + weighted_sum (normalized data) i),
       Fin (d + Rsum (normalized data))).
Proof.
  induction data as [| b rest IH]; intros i n d.
  - cbn. f_equal; apply Fin_eq; lra.
  - cbn [centroidLoop]. rewrite amplitude_Fin. unfold of_nat at 1.
    cbn [mul add]. rewrite IH. rewrite normalized_cons, Rsum_cons.
    cbn [weighted_sum]. f_equal; apply Fin_eq; lra.
Qed.

Lemma weighted_sum_bounds (l : list R) :
  Forall (fun a => 0 <= a <= 1) l ->
  forall i,
    0 <= weighted_sum l i /\
    weighted_sum l i <= (INR i + INR (length l) - 1) * Rsum l.
Proof.
  intros Hall. induction Hall as [| a l Ha Hall IH]; intros i.
  - cbn. lra.
  - cbn [weighted_sum length]. rewrite Rsum_cons, S_INR.
    destruct (IH (S i)) as [H0 H1]. rewrite S_INR in H1.
    pose proof (pos_INR i) as Hi. pose proof (pos_INR (length l)) as Hl.
    destruct (Rsum_unit_bounds l Hall) as [Hs _].
    split; [nra | nra].
Qed.

Lemma Rsum_normalized_zero (data : frame) :
  Rsum (normalized data) = 0 <-> total data = 0%nat.
Proof.
  rewrite Rsum_normalized. split.
  - intros H. assert (INR (total data) = 0) by lra. now apply INR_eq.
  - intros ->. cbn. lra.
Qed.

Lemma computeSpectralCentroid_range (data : frame) :
  exists x,
    computeSpectralCentroid data = Fin x /\
    0 <= x < 1 /\
    ((total data = 0%nat /\ x = 0) \/
     ((0 < total data)%nat /\
      x = weighted_sum (normalized data) 0 / Rsum (normalized data)
          / INR (length data))).
Proof.
  unfold computeSpectralCentroid.
  rewrite centroidLoop_sums. rewrite !Rplus_0_l.
  destruct (Nat.eq_dec (total data) 0) as [Hz | Hnz].
  - exists 0. apply Rsum_normalized_zero in Hz as Hs. rewrite Hs.
    rewrite strict_eq_Fin_true. split; [reflexivity |]. split; [lra | now left].
  - assert (Hs : Rsum (normalized data) <> 0).
    { intros H. now apply Rsum_normalized_zero in H. }
    rewrite strict_eq_Fin_false by assumption.
    assert (Hne : data <> []) by (intros ->; now apply Hnz).
    assert (Hn : 0 < INR (length data)).
    { apply INR_pos. destruct data; [congruence | cbn; lia]. }
    rewrite div_Fin by assumption. unfold of_nat. rewrite div_Fin by lra.
    eexists. split; [reflexivity |].
    destruct (Rsum_unit_bounds _ (normalized_unit data)) as [Hs0 _].
    assert (Hpos : 0 < Rsum (normalized data)) by lra.
    destruct (weighted_sum_bounds _ (normalized_unit data) 0%nat) as [Hw0 Hw1].
    unfold normalized in Hw1 at 2. rewrite length_map in Hw1. cbn [INR] in Hw1.
    assert (Hq : 0 <= weighted_sum (normalized data) 0 / Rsum (normalized data)
                 <= INR (length data) - 1).
    { split.
      - apply Rmult_le_pos; [assumption |].
        apply Rlt_le, Rinv_0_lt_compat, Hpos.
      - apply (Rmult_le_reg_r (Rsum (normalized data))); [assumption |].
        unfold Rdiv. rewrite Rmult_assoc, Rinv_l by lra. lra. }
    split; [| right; split; [lia | reflexivity]].
    split.
    + apply Rmult_le_pos; [apply Hq |]. apply Rlt_le, Rinv_0_lt_compat, Hn.
    + apply (Rmult_lt_reg_r (INR (length data))); [assumption |].
      unfold Rdiv at 1. rewrite Rmult_assoc, Rinv_l by lra. lra.
Qed.

Lemma total_zero_bins (data : frame) :
  total data = 0%nat -> Forall (fun d => to_nat d = 0%nat) data.
Proof.
  induction data as [| d rest IH]; intros H; [constructor |].
  rewrite total_cons in H. constructor; [lia | apply IH; lia].
Qed.

(** From a positive index on, the weighted sum of values in [0,1] vanishes
    exactly when every value does. *)
Lemma weighted_sum_zero (l : list R) :
  Forall (fun a => 0 <= a <= 1) l ->
  forall i, (0 < i)%nat ->
    (weighted_sum l i = 0 <-> Forall (fun a => a = 0) l).
Proof.
  intros Hall. induction Hall as [| a l Ha Hall IH]; intros i Hi.
  - split; [constructor | reflexivity].
  - cbn [weighted_sum].
    destruct (weighted_sum_bounds l Hall (S i)) as [Hw _].
    assert (Hpos : 0 < INR i) by now apply INR_pos.
    split.
    + intros H. assert (Ha0 : a = 0) by nra.
      constructor; [assumption |].
      apply (IH (S i)); [lia | nra].
    + intros H. pose proof (Forall_inv H) as Ha0. cbn beta in Ha0.
      pose proof (Forall_inv_tail H) as Hrest.
      apply (IH (S i)) in Hrest; [| lia]. rewrite Hrest, Ha0. lra.
Qed.

Lemma normalized_zero_bins (data : frame) :
  Forall (fun a => a = 0) (normalized data)
  <-> Forall (fun d => to_nat d = 0%nat) data.
Proof.
  unfold normalized. rewrite Forall_map. split; intros H;
    (eapply Forall_impl; [| exact H]); cbn beta; intros d Hd.
  - apply INR_eq. cbn [INR]. lra.
  - rewrite Hd. cbn [INR]. lra.
Qed.

(** The centroid vanishes exactly when the weighted sum has no term: no bin
    after the first has a magnitude. *)
Lemma computeSpectralCentroid_zero (data : frame) (x : R) :
  computeSpectralCentroid data = Fin x ->
  (x = 0 <-> Forall (fun d => to_nat d = 0%nat) (tl data)).
Proof.
  intros Hx.
  destruct (computeSpectralCentroid_range data)
    as [x' [Hx' [_ [[Hz ->] | [Hpos ->]]]]];
    rewrite Hx in Hx'; injection Hx' as ->.
  - split; [| reflexivity]. intros _.
    apply total_zero_bins in Hz. destruct data; [constructor |].
    now apply Forall_inv_tail in Hz.
  - destruct data as [| d rest]; [cbn in Hpos; lia |].
    assert (Hs : 0 < Rsum (normalized (d :: rest))).
    { destruct (Rsum_unit_bounds _ (normalized_unit (d :: rest))) as [H0 _].
      destruct (Req_dec (Rsum (normalized (d :: rest))) 0) as [E | E];
        [| lra].
      apply Rsum_normalized_zero in E. lia. }
    assert (Hn : 0 < INR (length (d :: rest))) by (apply INR_pos; cbn; lia).
    assert (Hw : weighted_sum (normalized (d :: rest)) 0
                 = weighted_sum (normalized rest) 1).
    { rewrite normalized_cons. cbn [weighted_sum INR]. lra. }
    rewrite Hw. cbn [tl].
    rewrite <- normalized_zero_bins.
    rewrite <- (weighted_sum_zero _ (normalized_unit rest) 1%nat)
      by constructor.
    split.
    + intros H.
      apply (Rmult_eq_compat_r (INR (length (d :: rest)))) in H.
      unfold Rdiv in H at 1. rewrite Rmult_assoc, Rinv_l, Rmult_1_r in H by lra.
      rewrite Rmult_0_l in H.
      apply (Rmult_eq_compat_r (Rsum (normalized (d :: rest)))) in H.
      unfold Rdiv in H. rewrite Rmult_assoc, Rinv_l, Rmult_1_r in H by lra.
      lra.
    + intros ->. unfold Rdiv. now rewrite !Rmult_0_l.
Qed.

(** X6. The spectral centroid of every frame is a finite value in [0,1), and
    it is 0 exactly when no bin after the first has a non-zero magnitude
    (which includes the frames whose magnitudes are all 0 and the empty
    frame, where the guard on the denominator gives 0). *)
Theorem spectralCentroid_range (s : AudioService) (data : frame)
  (nf : number) :
  exists x,
    spectralCentroid (extractAudioFeatures s data nf) = Fin x /\
    0 <= x < 1 /\
    (x = 0 <-> Forall (fun d => to_nat d = 0%nat) (tl data)).
Proof.
  cbn [extractAudioFeatures spectralCentroid].
  destruct (computeSpectralCentroid_range data) as [x [Hx [Hr _]]].
  exists x. split; [assumption |]. split; [assumption |].
  now apply computeSpectralCentroid_zero.
Qed.

Lemma computeSpectralRolloff_range (data : frame) :
  exists x,
    computeSpectralRolloff data = Fin x /\ 0 <= x < 1.
Proof.
 
  destruct (computeSpectralRolloff_cases data)
    as [[_ ->] | [_ [i [[Hi _] ->]]]].
  - exists 0. split; [reflexivity | lra].
  - eexists. split; [reflexivity |].
    assert (Hn : 0 < INR (length data)) by (apply INR_pos; lia).
    split.
    + apply Rmult_le_pos; [apply pos_INR |].
      apply Rlt_le, Rinv_0_lt_compat, Hn.
    + apply (Rmult_lt_reg_r (INR (length data))); [assumption |].
      unfold Rdiv. rewrite Rmult_assoc, Rinv_l by lra.
      apply lt_INR in Hi. lra.
Qed.

(** X7. The spectral rolloff of every frame is a finite value in [0,1): the
    bin index found is below the number of bins, so the feature needs no
    clamping. *)
Theorem spectralRolloff_range (s : AudioService) (data : frame)
  (nf : number) :
  exists x,
    spectralRolloff (extractAudioFeatures s data nf) = Fin x /\ 0 <= x < 1.
Proof.
  cbn [extractAudioFeatures spectralRolloff]. apply computeSpectralRolloff_range.
Qed.

Lemma extractAudioFeatures_empty (s : AudioService) (nf : number) :
  extractAudioFeatures s [] nf
  = {| energy := NaN; rms := NaN; zcr := NaN; spectralCentroid := Fin 0;
       spectralFlatness := Fin 0; spectralRolloff := Fin 0 |}.
Proof.
  unfold extractAudioFeatures, computeEnergy, computeRms, computeZcr.
  change (sumLoop [] 0) with 0%nat. change (length (@nil byte) * 255)%nat with 0%nat.
  change (length (@nil byte)) with 0%nat.
  change (rmsLoop [] (Fin 0)) with (Fin 0).
  change (zcrLoop (tl []) false 0) with 0%nat.
  change (of_nat 0) with (Fin 0).
  rewrite div_zero_zero. cbn [sub add neg Math_max mul Math_min Math_sqrt].
  f_equal.
  - unfold computeSpectralCentroid. cbn [centroidLoop].
    now rewrite strict_eq_Fin_true.
  - now apply computeSpectralFlatness_empty.
Qed.

Lemma detectedMood_NaN_energy (s : AudioService) (f : AudioFeatures) :
  energy f = NaN -> detectedMood s f = calm.
Proof.
  intros H. unfold detectedMood, gtb. rewrite H. cbn [ltb andb].
  now rewrite andb_false_r.
Qed.

(** X8. On an empty frame the extractor divides 0 by 0: energy, rms and zcr
    are [NaN], while centroid, flatness and rolloff are 0.  A feature set
    whose energy is [NaN] fails every comparison of the classifier, so its
    candidate mood is calm, whatever the current mood and the other
    features. *)
Theorem empty_frame_features (s : AudioService) (nf : number) :
  extractAudioFeatures s [] nf
  = {| energy := NaN; rms := NaN; zcr := NaN; spectralCentroid := Fin 0;
       spectralFlatness := Fin 0; spectralRolloff := Fin 0 |}
  /\ detectedMood s (extractAudioFeatures s [] nf) = calm
  /\ (forall s' f, energy f = NaN -> detectedMood s' f = calm).
Proof.
  split; [apply extractAudioFeatures_empty |].
  split.
  - apply detectedMood_NaN_energy. now rewrite extractAudioFeatures_empty.
  - intros s' f. apply detectedMood_NaN_energy.
Qed.

End FeatureRangeTheorems.

(* ================================================================== *)
(** ** The range of the dominant frequency *)
(* ================================================================== *)

Section DominantFrequencyRange.

Local Open Scope R_scope.

Lemma total_zero_magnitude (data : frame) :
  total data = 0%nat -> forall j, magnitude data j = 0%nat.
Proof.
  induction data as [| d rest IH]; intros Hz j.
  - unfold magnitude. destruct j; reflexivity.
  - rewrite total_cons in Hz. destruct j as [| j].
    + unfold magnitude. cbn [nth]. lia.
    + unfold magnitude in *. cbn [nth]. apply IH. lia.
Qed.

Lemma dominantLoop_silent (data : frame) :
  total data = 0%nat -> dominantLoop data 0 0 0 = 0%nat.
Proof.
  intros Hz. apply (lowest_peak_unique data).
  - apply dominantLoop_lowest_peak.
  - split.
    + intros j. rewrite !(total_zero_magnitude data Hz). lia.
    + intros j Hj. lia.
Qed.

Lemma dominantFrequency_value (s : AudioService) (an : AnalyserNode)
  (ctx : AudioContext) (r : R) (data : frame) :
  analyzer s = Some an -> audioContext s = Some ctx ->
  sampleRate ctx = Fin r -> (0 < fftSize an)%nat ->
  calculateDominantFrequency s data
  = Fin (INR (dominantLoop data 0 0 0) * r / INR (fftSize an * 2)).
Proof.
  intros Han Hctx Hr Hfft. unfold calculateDominantFrequency.
  rewrite Han, Hctx, Hr. unfold of_nat. cbn [mul].
  apply div_Fin. apply Rgt_not_eq, INR_pos. lia.
Qed.

(** X9. With the analyser's frame (its length is half the transform size)
    and a positive finite sample rate, the dominant frequency is a finite
    value in [0, sampleRate / 4): the peak bin index is below the number of
    bins and the formula divides by twice the transform size.  It is 0 on a
    frame whose magnitudes are all 0. *)
Theorem dominantFrequency_range (s : AudioService) (an : AnalyserNode)
  (ctx : AudioContext) (r : R) (data : frame) :
  analyzer s = Some an -> audioContext s = Some ctx ->
  sampleRate ctx = Fin r -> 0 < r ->
  data <> [] -> (length data * 2 = fftSize an)%nat ->
  exists x,
    calculateDominantFrequency s data = Fin x /\
    0 <= x < r / 4 /\
    (total data = 0%nat -> x = 0).
Proof.
  intros Han Hctx Hr Hpos Hne Hlen.
  assert (Hn : (0 < length data)%nat) by (destruct data; [congruence | cbn; lia]).
  assert (Hfft : (0 < fftSize an)%nat) by lia.
  rewrite (dominantFrequency_value s an ctx r data Han Hctx Hr Hfft).
  eexists. split; [reflexivity |].
  destruct (dominantLoop_lowest_peak data) as [_ Hk].
  set (k := dominantLoop data 0 0 0) in *.
  assert (Hk' : (k < length data)%nat) by lia.
  rewrite <- Hlen. rewrite !mult_INR. replace (INR 2) with 2 by (cbn; lra).
  assert (HN : 0 < INR (length data)) by now apply INR_pos.
  apply lt_INR in Hk'. pose proof (pos_INR k) as Hk0.
  split; [split |].
  - apply Rmult_le_pos; [nra |]. apply Rlt_le, Rinv_0_lt_compat. lra.
  - apply (Rmult_lt_reg_r (INR (length data) * 2 * 2)); [lra |].
    unfold Rdiv at 1. rewrite Rmult_assoc, Rinv_l by lra. nra.
  - intros Hz. subst k. rewrite (dominantLoop_silent data Hz). cbn [INR].
    unfold Rdiv. now rewrite !Rmult_0_l.
Qed.

End DominantFrequencyRange.

(* ================================================================== *)
(** ** What the life cycle keeps *)
(* ================================================================== *)

Section LifeCycleInvariants.

Variable throws : callback -> AudioAnalysisResult -> bool.
Variable audioSettings_fftSize : nat.

Local Abbreviation step' := (step throws audioSettings_fftSize).
Local Abbreviation run' := (run throws audioSettings_fftSize).

(** What an activation does to the world: nothing, or the classification
    step on the service, at most one more scheduled activation, and more
    invocations. *)
Lemma analyzeAudio_effect (w : World) (data : frame) (now : Z) :
  let w' := fst (analyzeAudio throws w data now) in
  (service w' = service w \/ service w' = frameService (service w) data now)
  /\ pendingInitialize w' = pendingInitialize w
  /\ (scheduledFrames w' <= S (scheduledFrames w))%nat
  /\ exists calls, invocations w' = invocations w ++ calls.
Proof.
  cbn zeta.
  destruct (isInitialized (service w)) eqn:Hinit.
  - destruct (analyzer (service w)) as [an |] eqn:Han.
    + rewrite (analyzeAudio_active throws w an data now Hinit Han).
      cbn [fst service pendingInitialize scheduledFrames invocations].
      split; [now right |]. split; [reflexivity |].
      split; [| eexists; reflexivity].
      destruct (snd (forEach_listener throws _ _)); lia.
    + unfold analyzeAudio. rewrite Hinit, Han. cbn [negb fst].
      split; [now left |]. split; [reflexivity |].
      split; [lia | exists []; now rewrite app_nil_r].
  - rewrite analyzeAudio_stopped by assumption. cbn [fst].
    split; [now left |]. split; [reflexivity |].
    split; [lia | exists []; now rewrite app_nil_r].
Qed.

(** The service a resumed [initialize()] hands to the loop. *)
Definition initialized_service (s : AudioService) (rate : number)
  : AudioService :=
  {| audioContext := Some {| sampleRate := rate; closed := false |};
     analyzer := Some {| fftSize := audioSettings_fftSize |};
     stream := Some {| tracksStopped := false |};
     isInitialized := true;
     sensitivity := sensitivity s; listeners := listeners s;
     currentMood := currentMood s; moodChangeTime := moodChangeTime s;
     moodChangeThreshold := moodChangeThreshold s |}.

Lemma initialize_granted_effect (w : World) (rate : number) (data : frame)
  (now : Z) :
  let w' := initialize_granted throws audioSettings_fftSize w rate data now in
  let s1 := initialized_service (service w) rate in
  (service w' = s1 \/ service w' = frameService s1 data now)
  /\ (scheduledFrames w' <= S (scheduledFrames w))%nat
  /\ exists calls, invocations w' = invocations w ++ calls.
Proof.
  cbn zeta. unfold initialize_granted, startAnalysisLoop.
  cbn [service analyzer audioContext].
  match goal with
  | |- context [analyzeAudio _ ?W _ _] =>
      destruct (analyzeAudio_effect W data now) as [Hs [_ [Hn Hi]]]
  end.
  cbn [service scheduledFrames invocations] in Hs, Hn, Hi.
  split; [exact Hs | split; [exact Hn | exact Hi]].
Qed.

(** A property of the service that the classification step, [stop] and a
    resumed [initialize] keep is kept by every event that is not excluded. *)
Lemma step_preserves (P : AudioService -> Prop) (excluded : event -> bool) :
  (forall s data now, P s -> P (frameService s data now)) ->
  (forall s, P s -> P (stop s)) ->
  (forall s rate, P s -> P (initialized_service s rate)) ->
  (forall s cb, excluded (CallSubscribe cb) = false ->
                P s -> P (fst (subscribe s cb))) ->
  (forall s h, excluded (InvokeUnsubscribe h) = false ->
               P s -> P (unsubscribe h s)) ->
  (forall s v, excluded (CallSetSensitivity v) = false ->
               P s -> P (setSensitivity s v)) ->
  forall w e, excluded e = false -> P (service w) -> P (service (step' w e)).
Proof.
  intros Hframe Hstop Hinit Hsub Hunsub Hset w e He HP.
  destruct e as [| rate data now | | data now | | cb | h | v]; cbn [step].
  - unfold initialize_call. now destruct (isInitialized (service w)).
  - destruct (pendingInitialize w); [assumption |].
    destruct (initialize_granted_effect w rate data now) as [[Hs | Hs] _];
      rewrite Hs; [| apply Hframe]; now apply Hinit.
  - now destruct (pendingInitialize w).
  - destruct (scheduledFrames w) as [| n]; [assumption |].
    match goal with
    | |- context [analyzeAudio _ ?W _ _] =>
        destruct (analyzeAudio_effect W data now) as [[Hs | Hs] _]
    end; rewrite Hs; cbn [service]; [| apply Hframe]; assumption.
  - now apply Hstop.
  - now apply Hsub.
  - now apply Hunsub.
  - now apply Hset.
Qed.

Lemma run_preserves (P : AudioService -> Prop) (excluded : event -> bool) :
  (forall w e, excluded e = false -> P (service w) -> P (service (step' w e))) ->
  forall events w,
    forallb (fun e => negb (excluded e)) events = true ->
    P (service w) -> P (service (run' w events)).
Proof.
  intros Hstep events. induction events as [| e rest IH]; intros w Hev HP.
  - exact HP.
  - cbn [forallb] in Hev. apply andb_true_iff in Hev. destruct Hev as [He Hrest].
    apply negb_true_iff in He. unfold run in *. cbn [fold_left].
    apply IH; [assumption |]. now apply Hstep.
Qed.

(** X10. Only [subscribe] and the unsubscribe handles change the registry:
    over any run of other events (frames analysed, [stop()], [initialize()]
    calls and their outcome, [setSensitivity]) the list of subscribers stays
    exactly as it was.  In particular [stop()] removes no subscriber, and a
    restarted session publishes to the subscribers of the previous one. *)
Theorem registry_survives (w : World) (events : list event) :
  forallb (fun e => negb (changes_registry e)) events = true ->
  listeners (service (run' w events)) = listeners (service w).
Proof.
  intros Hev.
  apply (run_preserves (fun s => listeners s = listeners (service w))
           changes_registry); [| assumption | reflexivity].
  apply (step_preserves (fun s => listeners s = listeners (service w))
           changes_registry).
  - intros s data now H. now rewrite frameService_listeners.
  - intros s H. exact H.
  - intros s rate H. exact H.
  - intros s cb He. discriminate He.
  - intros s h He. discriminate He.
  - intros s v _ H. exact H.
Qed.

Lemma frameService_fields (s : AudioService) (data : frame) (now : Z) :
  sensitivity (frameService s data now) = sensitivity s /\
  moodChangeThreshold (frameService s data now) = moodChangeThreshold s.
Proof.
  destruct (detectMood_other_fields s
              (extractAudioFeatures s data noiseFloor) now)
    as [_ [_ [_ [_ [Hs [_ Ht]]]]]].
  now split.
Qed.

(** X11. The gain is kept in range: if the sensitivity is a finite value in
    [0,1] and no [setSensitivity] call is given [NaN], then after any run of
    events it is still a finite value in [0,1]. *)
Theorem sensitivity_stays_in_range (w : World) (events : list event) :
  in_unit (sensitivity (service w)) ->
  forallb (fun e => negb (sets_NaN_sensitivity e)) events = true ->
  in_unit (sensitivity (service (run' w events))).
Proof.
  intros Hunit Hev.
  apply (run_preserves (fun s => in_unit (sensitivity s))
           sets_NaN_sensitivity); [| assumption | assumption].
  apply (step_preserves (fun s => in_unit (sensitivity s))
           sets_NaN_sensitivity).
  - intros s data now H. now rewrite (proj1 (frameService_fields s data now)).
  - intros s H. exact H.
  - intros s rate H. exact H.
  - intros s cb _ H. exact H.
  - intros s h _ H. exact H.
  - intros s v He _. cbn [setSensitivity sensitivity].
    assert (Hv : v <> NaN) by (intros ->; discriminate He).
    destruct (clamp_finite v Hv) as [g [Hg [Hr _]]].
    exists g. now split.
Qed.

(** X12. Over any run of events, the debounce threshold keeps its value and,
    when it is not negative, the timestamp of the last transition never
    decreases: neither [stop()] nor a new [initialize()] resets it. *)
Theorem transition_time_never_decreases (w : World) (events : list event) :
  (0 <= moodChangeThreshold (service w))%Z ->
  moodChangeThreshold (service (run' w events))
  = moodChangeThreshold (service w)
  /\ (moodChangeTime (service w)
      <= moodChangeTime (service (run' w events)))%Z.
Proof.
  intros Hth.
  apply (run_preserves
           (fun s => moodChangeThreshold s = moodChangeThreshold (service w) /\
                     (moodChangeTime (service w) <= moodChangeTime s)%Z)
           (fun _ => false)).
  - apply (step_preserves
             (fun s => moodChangeThreshold s = moodChangeThreshold (service w) /\
                       (moodChangeTime (service w) <= moodChangeTime s)%Z)
             (fun _ => false)).
    + intros s data now [Ht Hm].
      rewrite (proj2 (frameService_fields s data now)).
      split; [assumption |].
      etransitivity; [exact Hm |]. unfold frameService.
      apply detectMood_time_step. now rewrite Ht.
    + intros s H. exact H.
    + intros s rate H. exact H.
    + intros s cb _ H. exact H.
    + intros s h _ H. exact H.
    + intros s v _ H. exact H.
  - clear. induction events as [| e rest IH]; [reflexivity | exact IH].
  - split; [reflexivity | lia].
Qed.

Lemma step_without_analysis (w : World) (e : event) :
  analyses_frame e = false ->
  currentMood (service (step' w e)) = currentMood (service w) /\
  moodChangeTime (service (step' w e)) = moodChangeTime (service w).
Proof.
  intros He. destruct e; cbn [step]; try discriminate He.
  - unfold initialize_call. now destruct (isInitialized (service w)).
  - now destruct (pendingInitialize w).
  - now split.
  - now split.
  - now split.
  - now split.
Qed.

(** X13. The mood and the timestamp of its last transition are changed by
    the analysis of a frame and by nothing else: over any run of events that
    analyses no frame they stay as they were.  In particular neither
    [stop()] nor a call of [initialize()] puts the mood back to its initial
    value. *)
Theorem mood_changed_by_analysis_only (w : World) (events : list event) :
  forallb (fun e => negb (analyses_frame e)) events = true ->
  currentMood (service (run' w events)) = currentMood (service w) /\
  moodChangeTime (service (run' w events)) = moodChangeTime (service w).
Proof.
  revert w. induction events as [| e rest IH]; intros w Hev.
  - now split.
  - cbn [forallb] in Hev. apply andb_true_iff in Hev. destruct Hev as [He Hrest].
    apply negb_true_iff in He.
    destruct (step_without_analysis w e He) as [Hm Ht].
    destruct (IH (step' w e) Hrest) as [Hm' Ht'].
    unfold run in *. cbn [fold_left]. split; congruence.
Qed.

Lemma step_scheduled (w : World) (e : event) :
  (scheduledFrames (step' w e)
   <= scheduledFrames w + (if resumes_initialize e then 1 else 0))%nat.
Proof.
  destruct e as [| rate data now | | data now | | cb | h | v];
    cbn [step resumes_initialize setService scheduledFrames].
  - unfold initialize_call. destruct (isInitialized (service w)); cbn; lia.
  - destruct (pendingInitialize w); [lia |].
    destruct (initialize_granted_effect w rate data now) as [_ [Hn _]]. lia.
  - destruct (pendingInitialize w); cbn; lia.
  - destruct (scheduledFrames w) as [| n] eqn:E; [lia |].
    match goal with
    | |- context [analyzeAudio _ ?W _ _] =>
        destruct (analyzeAudio_effect W data now) as [_ [_ [Hn _]]]
    end.
    cbn [scheduledFrames] in Hn. lia.
  - lia.
  - lia.
  - lia.
  - lia.
Qed.

Lemma granted_count_cons (e : event) (events : list event) :
  granted_count (e :: events)
  = ((if resumes_initialize e then 1 else 0) + granted_count events)%nat.
Proof.
  unfold granted_count. cbn [filter]. now destruct (resumes_initialize e).
Qed.

(** X14. An analysis loop never multiplies: an activation consumes its
    scheduled frame and schedules at most one.  Over any run of events the
    number of scheduled activations is at most what it was plus the number
    of [initialize()] calls resumed with a stream during the run. *)
Theorem loops_started_by_initialize_only (w : World) (events : list event) :
  (scheduledFrames (run' w events)
   <= scheduledFrames w + granted_count events)%nat.
Proof.
  revert w. induction events as [| e rest IH]; intros w.
  - cbn. lia.
  - rewrite granted_count_cons. unfold run in *. cbn [fold_left].
    specialize (IH (step' w e)). pose proof (step_scheduled w e). lia.
Qed.

End LifeCycleInvariants.

(* ================================================================== *)
(** ** Normalised features *)
(* ================================================================== *)

Section NormalisationTheorems.

Local Open Scope R_scope.

Lemma unit_clamp_Fin (v : R) :
  Math_min (Fin 1) (Math_max (Fin 0) (Fin v)) = Fin (Rmin 1 (Rmax 0 v)).
Proof. now rewrite Math_max_Fin, Math_min_Fin. Qed.










Lemma unit_clamp_above (t v : R) :
  0 <= t < 1 -> (t < Rmin 1 (Rmax 0 v) <-> t < v).
Proof.
  intros Ht. unfold Rmin, Rmax.
  destruct (Rle_dec 0 v); destruct (Rle_dec 1 _); lra.
Qed.

Lemma unit_clamp_below (t v : R) :
  0 < t <= 1 -> (Rmin 1 (Rmax 0 v) < t <-> v < t).
Proof.
  intros Ht. unfold Rmin, Rmax.
  destruct (Rle_dec 0 v); destruct (Rle_dec 1 _); lra.
Qed.

Lemma ltb_Fin_iff (a b : R) : (Fin a <? Fin b)%js = true <-> a < b.
Proof.
  unfold ltb. destruct (Rlt_dec a b); split; intros; (assumption || reflexivity || discriminate || contradiction).
Qed.

(** The candidate mood of normalised finite features, by the first three
    rules, in terms of the raw values. *)
Lemma normalized_candidate (s : AudioService) (f : AudioFeatures)
  (e z c : R) :
  energy f = Fin e -> zcr f = Fin z -> spectralCentroid f = Fin c ->
  (e < 0.03 -> detectedMood s (normalizeFeatures f) = currentMood s)
  /\ (~ e < 0.03 -> 0.3 < e /\ 200 < z ->
      detectedMood s (normalizeFeatures f) = energetic)
  /\ (~ e < 0.03 -> ~ (0.3 < e /\ 200 < z) -> 0.2 < e /\ 3000 < c ->
      detectedMood s (normalizeFeatures f) = happy)
  /\ (~ e < 0.03 -> ~ (0.3 < e /\ 200 < z) -> ~ (0.2 < e /\ 3000 < c) ->
      detectedMood s (normalizeFeatures f) = melancholic \/
      detectedMood s (normalizeFeatures f) = calm).
Proof.
  intros He Hz Hc. unfold detectedMood, gtb.
  cbn [normalizeFeatures energy zcr spectralCentroid spectralFlatness].
  rewrite He, Hz, Hc. rewrite !div_Fin by lra. rewrite !unit_clamp_Fin.
  assert (E1 : (Fin (Rmin 1 (Rmax 0 e)) <? Fin 0.03)%js = true <-> e < 0.03).
  { rewrite ltb_Fin_iff. apply unit_clamp_below. lra. }
  assert (E2 : (Fin 0.3 <? Fin (Rmin 1 (Rmax 0 e)))%js = true <-> 0.3 < e).
  { rewrite ltb_Fin_iff. apply unit_clamp_above. lra. }
  assert (E3 : (Fin 0.2 <? Fin (Rmin 1 (Rmax 0 (z / 1000))))%js = true
               <-> 200 < z).
  { rewrite ltb_Fin_iff, unit_clamp_above by lra. lra. }
  assert (E4 : (Fin 0.2 <? Fin (Rmin 1 (Rmax 0 e)))%js = true <-> 0.2 < e).
  { rewrite ltb_Fin_iff. apply unit_clamp_above. lra. }
  assert (E5 : (Fin 0.3 <? Fin (Rmin 1 (Rmax 0 (c / 10000))))%js = true
               <-> 3000 < c).
  { rewrite ltb_Fin_iff, unit_clamp_above by lra. lra. }
  destruct (Fin (Rmin 1 (Rmax 0 e)) <? Fin 0.03)%js;
  destruct (Fin 0.3 <? Fin (Rmin 1 (Rmax 0 e)))%js;
  destruct (Fin 0.2 <? Fin (Rmin 1 (Rmax 0 (z / 1000))))%js;
  destruct (Fin 0.2 <? Fin (Rmin 1 (Rmax 0 e)))%js;
  destruct (Fin 0.3 <? Fin (Rmin 1 (Rmax 0 (c / 10000))))%js;
  cbn [andb];
  (split; [| split; [| split]]);
  try (intros; reflexivity);
  try (intros H; exfalso; apply E1 in H; discriminate);
  try (intros H; exfalso; apply H; now apply E1);
  try (intros _ [H1 H2]; exfalso;
       (apply E2 in H1; discriminate) || (apply E3 in H2; discriminate));
  try (intros _ H; exfalso; apply H; split; [now apply E2 | now apply E3]);
  try (intros _ _ [H1 H2]; exfalso;
       (apply E4 in H1; discriminate) || (apply E5 in H2; discriminate));
  try (intros _ _ H; exfalso; apply H; split; [now apply E4 | now apply E5]);
  try (intros _ _ _;
       destruct (_ && _); [now left | now right]).
Qed.

(** X16. When [handleAudioFeatures] classifies raw features through
    [normalizeFeatures], the thresholds of the classifier apply to the raw
    values as follows, for finite energy e, zero-crossing rate z and
    centroid c.  The candidate is energetic exactly when e > 0.3 and
    z > 200, or when e < 0.03 and the current mood is energetic; it is happy
    exactly when the first case fails and e > 0.2 and c > 3000, or when
    e < 0.03 and the current mood is happy. *)
Theorem normalized_thresholds (s : AudioService) (f : AudioFeatures)
  (e z c : R) :
  energy f = Fin e -> zcr f = Fin z -> spectralCentroid f = Fin c ->
  (detectedMood s (normalizeFeatures f) = energetic <->
   (0.3 < e /\ 200 < z) \/ (e < 0.03 /\ currentMood s = energetic))
  /\ (detectedMood s (normalizeFeatures f) = happy <->
      (~ (0.3 < e /\ 200 < z) /\ 0.2 < e /\ 3000 < c)
      \/ (e < 0.03 /\ currentMood s = happy)).
Proof.
  intros He Hz Hc.
  destruct (normalized_candidate s f e z c He Hz Hc) as [R1 [R2 [R3 R4]]].
  destruct (Rlt_dec e 0.03) as [L | L].
  { rewrite (R1 L). split; split.
    - intros H. right. now split.
    - intros [[H _] | [_ H]]; [lra | exact H].
    - intros H. right. now split.
    - intros [[_ [H _]] | [_ H]]; [lra | exact H]. }
  destruct (Rlt_dec 0.3 e) as [A | A]; destruct (Rlt_dec 200 z) as [B | B];
    try (assert (NE : ~ (0.3 < e /\ 200 < z)) by (intros [? ?]; contradiction)).
  { rewrite (R2 L (conj A B)). split; split.
    - intros _. left. now split.
    - reflexivity.
    - discriminate.
    - intros [[H _] | [H _]]; [elim H; now split | contradiction]. }
  all: destruct (Rlt_dec 0.2 e) as [C | C]; destruct (Rlt_dec 3000 c) as [D | D];
    try (assert (NH : ~ (0.2 < e /\ 3000 < c)) by (intros [? ?]; contradiction)).
  all: try (rewrite (R3 L NE (conj C D)); split; split;
            [ discriminate
            | intros [[? ?] | [? _]]; contradiction
            | intros _; left; repeat split; assumption
            | reflexivity ]).
  all: destruct (R4 L NE NH) as [-> | ->]; split; split;
    try discriminate;
    try (intros [[? ?] | [? _]]; contradiction);
    try (intros [[_ [? ?]] | [? _]]; contradiction).
Qed.

End NormalisationTheorems.

(* ================================================================== *)
(** ** The particle system *)
(* ================================================================== *)

Section ParticleTheorems.

Variable color : Type.
Variable paletteColor : MoodType -> color.
Variable fround : number -> number.

Local Open Scope R_scope.

(** [energy || 0] of a finite energy is that energy. *)
Lemma truthy_or_zero (e : R) :
  (if truthy (Fin e) then Fin e else Fin 0) = Fin e.
Proof.
  unfold truthy. destruct (Req_dec_T e 0) as [-> | _]; reflexivity.
Qed.

(** One smoothing step: the new factor in terms of the old one. *)
Lemma onFrame_expansion (p : ParticleSystem color) (data : AudioAnalysisResult)
  (originals : list number) (e c d : R) :
  mounted p = true -> originalPositions p = Some originals ->
  energy (features data) = Fin e ->
  currentExpansion p = Fin c ->
  onFrame fround p (Some data) (Fin d)
  = {| mounted := true;
       rotationX := (rotationX p + Fin (d * (0.01 + e * 2) * 0.3))%js;
       rotationY := (rotationY p + Fin (d * (0.01 + e * 2)))%js;
       positions :=
         expandLoop fround originals
           (Fin (c + (1 + e * 0.5 - c) * Rmin (d * 8) 1));
       needsUpdate := true;
       originalPositions := Some originals;
       currentExpansion := Fin (c + (1 + e * 0.5 - c) * Rmin (d * 8) 1);
       lastMood := lastMood p;
       materialColor := materialColor p;
       materialSize := materialSize p |}.
Proof.
  intros Hm Ho He Hc. unfold onFrame. rewrite Hm, Ho, He, Hc.
  cbn [negb]. rewrite truthy_or_zero. cbn [mul add sub neg].
  rewrite Math_min_Fin. cbn [mul add].
  replace (1 + e * 0.5 + - c) with (1 + e * 0.5 - c) by lra.
  reflexivity.
Qed.


Lemma smoothing_between (c t k : R) :
  0 <= k <= 1 ->
  Rmin c t <= c + (t - c) * k <= Rmax c t.
Proof.
  intros Hk. unfold Rmin, Rmax. destruct (Rle_dec c t); split; nra.
Qed.

Lemma smoothing_weight (d : R) : 0 <= d -> 0 <= Rmin (d * 8) 1 <= 1.
Proof.
  intros Hd. split; [apply Rmin_glb; lra | apply Rmin_r].
Qed.


(** What one frame does to the expansion factor, whatever the guards. *)
Lemma onFrame_expansion_range (p : ParticleSystem color)
  (audioData : option AudioAnalysisResult) (d c : R) :
  currentExpansion p = Fin c -> 1 <= c <= 1.5 -> 0 <= d ->
  (forall data, audioData = Some data ->
                published_energy (energy (features data))) ->
  exists c', currentExpansion (onFrame fround p audioData (Fin d)) = Fin c' /\
             1 <= c' <= 1.5.
Proof.
  intros Hc Hrange Hd Hen.
  destruct (mounted p) eqn:Hm.
  2:{ exists c. unfold onFrame. rewrite Hm. now split. }
  destruct audioData as [data |].
  2:{ exists c. unfold onFrame. rewrite Hm. now split. }
  destruct (originalPositions p) as [originals |] eqn:Ho.
  2:{ exists c. unfold onFrame. rewrite Hm, Ho. now split. }
  assert (Hstep : forall e, 0 <= e <= 1 ->
            1 <= c + (1 + e * 0.5 - c) * Rmin (d * 8) 1 <= 1.5).
  { intros e He.
    pose proof (smoothing_weight d Hd) as Hk.
    set (k := Rmin (d * 8) 1) in *.
    pose proof (smoothing_between c (1 + e * 0.5) k Hk) as Hb.
    unfold Rmin, Rmax in Hb.
    destruct (Rle_dec c (1 + e * 0.5)); lra. }
  destruct (Hen data eq_refl) as [Hnan | [e [He Hu]]].
  - (* energy NaN: [energy || 0] is 0 *)
    eexists. split.
    + unfold onFrame. rewrite Hm, Ho, Hnan, Hc. cbn [negb truthy].
      cbn [currentExpansion mul add sub neg]. rewrite Math_min_Fin.
      cbn [mul add]. reflexivity.
    + specialize (Hstep 0 ltac:(lra)).
      replace (1 + 0 * 0.5 + - c) with (1 + 0 * 0.5 - c) by lra. exact Hstep.
  - rewrite (onFrame_expansion p data originals e c d Hm Ho He Hc).
    cbn [currentExpansion]. eexists. split; [reflexivity | now apply Hstep].
Qed.

(** X18. The expansion factor stays in range: started in [1, 1.5] (it starts
    at 1), after any run of animation frames with finite time steps d >= 0
    and energies as the service publishes them ([NaN] or in [0,1]), it is
    still a finite value in [1, 1.5], whether or not the guards of the
    callback let it act. *)
Theorem expansion_stays_in_range (p : ParticleSystem color)
  (frames : list (option AudioAnalysisResult * number)) (c : R) :
  currentExpansion p = Fin c -> 1 <= c <= 1.5 ->
  Forall (fun fr =>
            (exists d, snd fr = Fin d /\ 0 <= d) /\
            (forall data, fst fr = Some data ->
                          published_energy (energy (features data))))
    frames ->
  exists c', currentExpansion (animate fround p frames) = Fin c' /\
             1 <= c' <= 1.5.
Proof.
  intros Hc Hrange Hall. revert p c Hc Hrange.
  induction Hall as [| [a delta] rest [[d [Hd Hd0]] Hen] Hall IH];
    intros p c Hc Hrange.
  - exists c. now split.
  - cbn [fst snd] in Hd, Hen. subst delta.
    destruct (onFrame_expansion_range p a d c Hc Hrange Hd0 Hen)
      as [c1 [Hc1 Hr1]].
    unfold animate in *. cbn [fold_left fst snd].
    now apply (IH _ c1).
Qed.

(** X19. The effect on a new result sets the particle size to
    0.1 + 0.5 * energy, a value in [0.1, 0.6] for an energy in [0,1] and
    [NaN] for a [NaN] energy, and records the mood of the result.  If the
    colour of the material was the palette colour of the recorded mood, it
    is the palette colour of the mood of the result afterwards; the
    rotation, the positions and the expansion factor are not touched, and
    the run of the effect that the change of the recorded mood triggers, on
    the same result, changes nothing more. *)
Theorem effect_tracks_result (p : ParticleSystem color)
  (data : AudioAnalysisResult) :
  materialColor p = paletteColor (lastMood p) ->
  let p' := onAudioData paletteColor p (Some data) in
  lastMood p' = mood data
  /\ materialColor p' = paletteColor (mood data)
  /\ (forall e, energy (features data) = Fin e -> 0 <= e <= 1 ->
        exists x, materialSize p' = Fin x /\ x = 0.1 + e * 0.5 /\
                  0.1 <= x <= 0.6)
  /\ (energy (features data) = NaN -> materialSize p' = NaN)
  /\ currentExpansion p' = currentExpansion p
  /\ positions p' = positions p
  /\ rotationX p' = rotationX p /\ rotationY p' = rotationY p
  /\ onAudioData paletteColor p' (Some data) = p'.
Proof.
  intros Hcol. cbn zeta.
  assert (Hagain : onAudioData paletteColor
                     (onAudioData paletteColor p (Some data)) (Some data)
                   = onAudioData paletteColor p (Some data)).
  { unfold onAudioData.
    cbn [mounted rotationX rotationY positions needsUpdate originalPositions
         currentExpansion lastMood materialColor materialSize].
    destruct (MoodType_eq_dec (mood data) (lastMood p)) as [E | E].
    - destruct (MoodType_eq_dec (mood data) (lastMood p)); [reflexivity |].
      contradiction.
    - destruct (MoodType_eq_dec (mood data) (mood data)); [reflexivity |].
      contradiction. }
  unfold onAudioData in *.
  cbn [lastMood materialColor materialSize currentExpansion positions
       rotationX rotationY].
  split; [| split; [| split; [| split]]].
  - now destruct (MoodType_eq_dec (mood data) (lastMood p)).
  - destruct (MoodType_eq_dec (mood data) (lastMood p)) as [-> | _];
      [exact Hcol | reflexivity].
  - intros e -> He. cbn [mul add]. eexists. split; [reflexivity |].
    split; [reflexivity | lra].
  - intros ->. reflexivity.
  - split; [reflexivity |]. split; [reflexivity |].
    split; [reflexivity |]. split; [reflexivity | exact Hagain].
Qed.

End ParticleTheorems.

(* ================================================================== *)
(** ** The feature bars of the page, and what the service feeds them *)
(* ================================================================== *)

Section DisplayTheorems.

Local Open Scope R_scope.

Lemma computeSpectralFlatness_in_unit (data : frame) :
  in_unit (computeSpectralFlatness data).
Proof.
  destruct (qualifying data) as [| q qs] eqn:Hq.
  - exists 0. split; [now apply computeSpectralFlatness_empty | lra].
  - assert (Hne : qualifying data <> []) by (rewrite Hq; discriminate).
    pose proof (mean_pos _ Hne (qualifying_positive data)) as HM.
    pose proof (geometric_le_arithmetic _ Hne (qualifying_positive data)) as HG.
    exists (geometric_mean (qualifying data) / mean (qualifying data)).
    split; [now apply computeSpectralFlatness_ratio |].
    split.
    + apply Rlt_le, Rdiv_lt_0_compat; [apply exp_pos | assumption].
    + apply (Rmult_le_reg_r (mean (qualifying data))); [assumption |].
      unfold Rdiv. rewrite Rmult_assoc, Rinv_l by lra. lra.
Qed.

(** The six features of a non-empty frame, extracted with a finite
    non-negative gain and a finite noise floor. *)
Lemma extracted_features_in_unit (s : AudioService) (data : frame) (nf g : R) :
  data <> [] -> sensitivity s = Fin g -> 0 <= g ->
  let f := extractAudioFeatures s data (Fin nf) in
  in_unit (energy f) /\ in_unit (rms f) /\ in_unit (zcr f) /\
  in_unit (spectralCentroid f) /\ in_unit (spectralFlatness f) /\
  exists x, spectralRolloff f = Fin x /\ 0 <= x < 1.
Proof.
  intros Hne Hs Hg. cbn zeta.
  cbn [extractAudioFeatures energy rms zcr spectralCentroid spectralFlatness
       spectralRolloff].
  split; [| split; [| split; [| split; [| split]]]].
  - rewrite Hs, computeEnergy_spec by assumption.
    eexists. split; [reflexivity | now apply spec_energy_range].
  - destruct (computeRms_range data Hne) as [x [Hx [_ Hr]]].
    exists x. now split.
  - destruct (computeZcr_range data Hne) as [Hc [_ [Hr _]]].
    eexists. split; [exact Hc | lra].
  - destruct (computeSpectralCentroid_range data) as [x [Hx [Hr _]]].
    exists x. split; [assumption | lra].
  - apply computeSpectralFlatness_in_unit.
  - destruct (computeSpectralRolloff_range data) as [x [Hx Hr]].
    exists x. now split.
Qed.

(** The width of a bar for a finite value and a positive maximum. *)
Lemma barPercentage_Fin (v m : R) :
  0 < m ->
  barPercentage (Some (Fin v)) (Fin m) = Fin (Rmin 100 (v / m * 100)).
Proof.
  intros Hm. unfold barPercentage, truthy.
  destruct (Req_dec_T v 0) as [-> | Hv].
  - apply Fin_eq. rewrite Rmin_right; lra.
  - rewrite div_Fin by lra. cbn [mul]. apply Math_min_Fin.
Qed.

(** X20. The width of a feature bar, in percent, for a positive maximum m:
    0 while there is no value and for a [NaN] value; for a finite value v it
    is min(100, v / m * 100), which is within [0, 100] when v >= 0, is
    proportional to v up to the maximum and stays at 100 from there on; an
    infinite value fills the bar. *)
Theorem bar_width_range (max : number) (m : R) :
  max = Fin m -> 0 < m ->
  barPercentage None max = Fin 0
  /\ barPercentage (Some NaN) max = Fin 0
  /\ barPercentage (Some PInf) max = Fin 100
  /\ forall v,
       barPercentage (Some (Fin v)) max = Fin (Rmin 100 (v / m * 100))
       /\ (0 <= v -> 0 <= Rmin 100 (v / m * 100) <= 100)
       /\ (v <= m -> Rmin 100 (v / m * 100) = v / m * 100)
       /\ (m <= v -> Rmin 100 (v / m * 100) = 100).
Proof.
  intros -> Hm.
  split; [reflexivity |]. split; [reflexivity |].
  split.
  { unfold barPercentage. cbn [truthy div].
    destruct (Rlt_dec m 0) as [Hn | _]; [lra |].
    cbn [mul]. unfold inf_times.
    destruct (Req_dec_T 100 0) as [Hn | _]; [lra |].
    destruct (Rlt_dec 0 100) as [_ | Hn]; [reflexivity | lra]. }
  intros v. split; [now apply barPercentage_Fin |].
  assert (Hq : forall a, a <= m -> a / m * 100 <= 100).
  { intros a Ha. apply (Rmult_le_reg_r m); [assumption |].
    unfold Rdiv. replace (a * / m * 100 * m) with (a * 100 * (/ m * m)) by ring.
    rewrite Rinv_l by lra. lra. }
  assert (Hq' : forall a, m <= a -> 100 <= a / m * 100).
  { intros a Ha. apply (Rmult_le_reg_r m); [assumption |].
    unfold Rdiv. replace (a * / m * 100 * m) with (a * 100 * (/ m * m)) by ring.
    rewrite Rinv_l by lra. lra. }
  split; [| split].
  - intros Hv. split; [| apply Rmin_l].
    apply Rmin_glb; [lra |].
    apply Rmult_le_pos; [| lra].
    apply Rmult_le_pos; [assumption |]. apply Rlt_le, Rinv_0_lt_compat, Hm.
  - intros Hle. apply Rmin_right. now apply Hq.
  - intros Hge. apply Rmin_left. now apply Hq'.
Qed.

(** A value in the unit interval gives a bar within range. *)
Lemma bar_of_unit (x : number) :
  in_unit x ->
  exists p, barPercentage (Some x) (Fin 1) = Fin p /\ 0 <= p <= 100.
Proof.
  intros [v [-> Hv]]. rewrite barPercentage_Fin by lra.
  eexists. split; [reflexivity |].
  replace (v / 1 * 100) with (v * 100) by field.
  rewrite Rmin_right by lra. lra.
Qed.

Lemma bar_of_rolloff (x : R) :
  0 <= x < 1 ->
  exists p, barPercentage (Some (Fin x)) (Fin 1.5) = Fin p /\
            0 <= p < 200 / 3.
Proof.
  intros Hx. rewrite barPercentage_Fin by lra.
  eexists. split; [reflexivity |].
  replace (x / 1.5 * 100) with (x * (200 / 3)) by lra.
  rewrite Rmin_right by lra. lra.
Qed.

(** X21. The bars drawn for a result of the service: for a sensitivity in
    [0,1] and every frame, each of the six widths is a finite value in
    [0, 100], and the rolloff bar, scaled by a maximum of 1.5 while the
    feature is below 1, stays below two thirds of its track; before the
    first result all six are 0. *)
Theorem result_bars_in_range (s : AudioService) (data : frame) (now : Z) :
  in_unit (sensitivity s) ->
  let bars := featureBars (Some (frameResult s data now)) in
  Forall (fun b => exists p, b = Fin p /\ 0 <= p <= 100) bars
  /\ (exists p, nth 5 bars NaN = Fin p /\ 0 <= p < 200 / 3)
  /\ featureBars None = repeat (Fin 0) 6.
Proof.
  intros [g [Hs Hg]]. cbn zeta.
  split; [| split; [| reflexivity]].
  - unfold featureBars, frameResult. cbn [option_map features].
    destruct data as [| d rest].
    + rewrite extractAudioFeatures_empty.
      cbn [energy rms zcr spectralCentroid spectralFlatness spectralRolloff].
      repeat constructor; exists 0;
        (split; [unfold barPercentage, truthy;
                 try destruct (Req_dec_T 0 0); try reflexivity; congruence
                | lra]).
    + assert (Hne : d :: rest <> []) by discriminate.
      destruct (extracted_features_in_unit s (d :: rest) 0.03 g Hne Hs
                  ltac:(lra))
        as [He [Hr [Hz [Hc [Hf [x [Hx Hxr]]]]]]].
      fold noiseFloor in He, Hr, Hz, Hc, Hf, Hx.
      repeat constructor; try (now apply bar_of_unit).
      rewrite Hx. destruct (bar_of_rolloff x Hxr) as [p [Hp Hpr]].
      exists p. split; [assumption | lra].
  - unfold featureBars, frameResult. cbn [option_map features nth].
    destruct data as [| d rest].
    + rewrite extractAudioFeatures_empty. cbn [spectralRolloff].
      exists 0. split; [| lra].
      unfold barPercentage, truthy. destruct (Req_dec_T 0 0); congruence.
    + assert (Hne : d :: rest <> []) by discriminate.
      destruct (extracted_features_in_unit s (d :: rest) 0.03 g Hne Hs
                  ltac:(lra))
        as [_ [_ [_ [_ [_ [x [Hx Hxr]]]]]]].
      fold noiseFloor in Hx. rewrite Hx. now apply bar_of_rolloff.
Qed.

End DisplayTheorems.

(* ================================================================== *)
(** ** The properties above at concrete frames, services and runs *)
(* ================================================================== *)

Section FurtherScenarios.

Local Open Scope R_scope.

Lemma energy_range_monotone_witness :
  exists e1 e2,
    energy (extractAudioFeatures (sample_service 0.5 []) (half_frame 2)
              (Fin 0.03)) = Fin e1 /\
    energy (extractAudioFeatures (sample_service 1 []) (half_frame 2)
              (Fin 0.03)) = Fin e2 /\
    0 <= e1 /\ e1 <= e2 /\ e2 <= 1.
Proof.
  apply (energy_range_monotone (sample_service 0.5 []) (sample_service 1 [])
           (half_frame 2) 0.03 0.5 1);
    [discriminate | reflexivity | reflexivity | lra].
Defined.

Lemma zero_sensitivity_freezes_mood_witness :
  let inputs := [([xff; xff], 1000%Z); ([x00; xff], 1016%Z)] in
  analyzeFrames (sample_service 0 [1%nat]) inputs = sample_service 0 [1%nat]
  /\ Forall (fun input =>
               energy (features (frameResult (sample_service 0 [1%nat])
                                   (fst input) (snd input)))
               = Fin 0 /\
               mood (frameResult (sample_service 0 [1%nat])
                       (fst input) (snd input)) = calm)
       inputs.
Proof.
  apply (zero_sensitivity_freezes_mood (sample_service 0 [1%nat])
           [([xff; xff], 1000%Z); ([x00; xff], 1016%Z)]);
    [reflexivity |].
  apply Forall_cons; [discriminate |].
  apply Forall_cons; [discriminate | apply Forall_nil].
Defined.

Lemma rms_formula_range_witness :
  exists x,
    rms (extractAudioFeatures (sample_service 0.8 []) [xff; xff; x00; x00]
           (Fin 0.03)) = Fin x /\
    x = sqrt (mean (squares (normalized [xff; xff; x00; x00]))) /\
    0 <= x <= 1.
Proof.
  apply (rms_formula_range (sample_service 0.8 []) [xff; xff; x00; x00]
           (Fin 0.03)).
  discriminate.
Defined.

Lemma zcr_range_witness :
  zcr (extractAudioFeatures (sample_service 0.8 []) [xff; x00; xff; x00]
         (Fin 0.03))
  = Fin (INR (sign_changes [xff; x00; xff; x00])
         / INR (length [xff; x00; xff; x00])) /\
  sign_changes [xff; x00; xff; x00] = 3%nat.
Proof.
  split; [| reflexivity].
  refine (proj1 (zcr_range (sample_service 0.8 []) [xff; x00; xff; x00]
                   (Fin 0.03) _)).
  discriminate.
Defined.

Lemma dominantFrequency_range_witness :
  exists x,
    calculateDominantFrequency (sample_service 0.8 []) (half_frame 64)
    = Fin x /\
    0 <= x < 44100 / 4 /\
    (total (half_frame 64) = 0%nat -> x = 0).
Proof.
  apply (dominantFrequency_range (sample_service 0.8 [])
           {| fftSize := 256 |}
           {| sampleRate := Fin 44100; closed := false |} 44100
           (half_frame 64));
    [reflexivity | reflexivity | reflexivity | lra | discriminate
    | reflexivity].
Defined.

Lemma registry_survives_witness :
  let events :=
    [AnimationFrame [x00; xff] 1016; CallSetSensitivity (Fin 0.5); CallStop;
     CallInitialize; MicrophoneGranted (Fin 48000) [xff; xff] 1032] in
  listeners (service (run never_throws 256 (sample_world 0.8 [1; 2]%nat)
                        events))
  = [1; 2]%nat.
Proof.
  exact (registry_survives never_throws 256 (sample_world 0.8 [1; 2]%nat)
           [AnimationFrame [x00; xff] 1016; CallSetSensitivity (Fin 0.5);
            CallStop; CallInitialize;
            MicrophoneGranted (Fin 48000) [xff; xff] 1032]
           eq_refl).
Defined.

Lemma mood_changed_by_analysis_only_witness :
  let events :=
    [CallSubscribe 3%nat; CallSetSensitivity (Fin 1); CallStop; CallInitialize;
     MicrophoneDenied] in
  currentMood (service (run never_throws 256 (sample_world 0.8 [1%nat])
                          events)) = calm /\
  moodChangeTime (service (run never_throws 256 (sample_world 0.8 [1%nat])
                             events)) = 0%Z.
Proof.
  exact (mood_changed_by_analysis_only never_throws 256
           (sample_world 0.8 [1%nat])
           [CallSubscribe 3%nat; CallSetSensitivity (Fin 1); CallStop;
            CallInitialize; MicrophoneDenied]
           eq_refl).
Defined.

Lemma sensitivity_stays_in_range_witness :
  in_unit
    (sensitivity
       (service
          (run never_throws 256 (sample_world 0.8 [1%nat])
             [CallSetSensitivity (Fin 7); CallSetSensitivity NInf;
              AnimationFrame [xff; xff] 1016;
              CallSetSensitivity (Fin (-2))]))).
Proof.
  apply (sensitivity_stays_in_range never_throws 256
           (sample_world 0.8 [1%nat])
           [CallSetSensitivity (Fin 7); CallSetSensitivity NInf;
            AnimationFrame [xff; xff] 1016; CallSetSensitivity (Fin (-2))]);
    [| reflexivity].
  exists 0.8. split; [reflexivity | lra].
Defined.

Lemma transition_time_never_decreases_witness :
  let events :=
    [AnimationFrame [xff; xff] 1016; AnimationFrame [x00; x00] 900;
     CallStop; CallInitialize;
     MicrophoneGranted (Fin 48000) [xff; x00] 2000] in
  moodChangeThreshold
    (service (run never_throws 256 (sample_world 0.8 [1%nat]) events))
  = 100%Z
  /\ (0 <= moodChangeTime
             (service (run never_throws 256 (sample_world 0.8 [1%nat])
                         events)))%Z.
Proof.
  apply (transition_time_never_decreases never_throws 256
           (sample_world 0.8 [1%nat])
           [AnimationFrame [xff; xff] 1016; AnimationFrame [x00; x00] 900;
            CallStop; CallInitialize;
            MicrophoneGranted (Fin 48000) [xff; x00] 2000]).
  cbn. lia.
Defined.

Lemma normalized_thresholds_witness :
  (detectedMood (sample_service 0.8 []) (normalizeFeatures loud_features)
   = energetic <->
   (0.3 < 0.5 /\ 200 < 0.3)
   \/ (0.5 < 0.03 /\ currentMood (sample_service 0.8 []) = energetic))
  /\ (detectedMood (sample_service 0.8 []) (normalizeFeatures loud_features)
      = happy <->
      (~ (0.3 < 0.5 /\ 200 < 0.3) /\ 0.2 < 0.5 /\ 3000 < 0.1)
      \/ (0.5 < 0.03 /\ currentMood (sample_service 0.8 []) = happy)).
Proof.
  exact (normalized_thresholds (sample_service 0.8 []) loud_features
           0.5 0.3 0.1 eq_refl eq_refl eq_refl).
Defined.


Lemma expansion_stays_in_range_witness :
  exists c',
    currentExpansion
      (animate sample_fround sample_particles
         [(Some sample_result, Fin (1 / 60)); (None, Fin 0.5);
          (Some sample_result, Fin 1)])
    = Fin c' /\
    1 <= c' <= 1.5.
Proof.
  apply (expansion_stays_in_range MoodType sample_fround sample_particles
           [(Some sample_result, Fin (1 / 60)); (None, Fin 0.5);
            (Some sample_result, Fin 1)] 1);
    [reflexivity | lra |].
  assert (Hloud : forall data, Some sample_result = Some data ->
                    published_energy (energy (features data))).
  { intros data H. injection H as <-. right. exists 0.5.
    split; [reflexivity | lra]. }
  apply Forall_cons.
  { split; [exists (1 / 60); split; [reflexivity | lra] | exact Hloud]. }
  apply Forall_cons.
  { split; [exists 0.5; split; [reflexivity | lra] |].
    intros data H. discriminate H. }
  apply Forall_cons; [| apply Forall_nil].
  split; [exists 1; split; [reflexivity | lra] | exact Hloud].
Defined.

Lemma effect_tracks_result_witness :
  let p' := onAudioData (fun m => m) sample_particles (Some sample_result) in
  lastMood p' = energetic /\ materialColor p' = energetic.
Proof.
  pose proof (effect_tracks_result MoodType (fun m => m) sample_particles
                sample_result eq_refl) as H.
  cbn zeta in H. split; [exact (proj1 H) | exact (proj1 (proj2 H))].
Defined.

Lemma bar_width_range_witness :
  barPercentage None (Fin 1.5) = Fin 0.
Proof.
  refine (proj1 (bar_width_range (Fin 1.5) 1.5 eq_refl _)). lra.
Defined.

Lemma result_bars_in_range_witness :
  Forall (fun b => exists p, b = Fin p /\ 0 <= p <= 100)
    (featureBars (Some (frameResult (sample_service 0.8 []) (half_frame 2)
                          1016))).
Proof.
  refine (proj1 (result_bars_in_range (sample_service 0.8 []) (half_frame 2)
                   1016 _)).
  exists 0.8. split; [reflexivity | lra].
Defined.

End FurtherScenarios.
